(** * CameraParams: parsing and comparing the parameters of a monocular camera

    A shallow embedding of [src/CameraParams.cpp] (namespace [VIO]):
    [CameraParams::parseYAML], [CameraParams::parseKITTICalib] and
    [CameraParams::equals].

    - a C++ [double] is an IEEE 754 binary64 number, [spec_float] at
      precision 53 and maximal exponent 1024;
    - a [std::vector] is a list, [v[k]] is a lookup that is undefined out of
      range;
    - a [cv::Mat] of doubles is the list of its rows;
    - a member function that updates [*this] takes the object before the call
      and returns the object after it. *)

From Stdlib Require Import ZArith Lia Bool String Ascii.
From Stdlib Require Import Floats.SpecFloat.
From stdpp Require Import base tactics option list.

Local Open Scope Z_scope.

(** ** Doubles *)

Module Double.

Definition prec : Z := 53.
Definition emax : Z := 1024.

Definition double : Type := spec_float.

Definition zero : double := S754_zero false.
Definition one : double := Eval vm_compute in SFone prec emax.
Definition infinity : double := S754_infinity false.

Definition add : double -> double -> double := SFadd prec emax.
Definition sub : double -> double -> double := SFsub prec emax.
Definition mul : double -> double -> double := SFmul prec emax.
Definition div : double -> double -> double := SFdiv prec emax.
Definition fabs : double -> double := SFabs.

(** [x < y] and [x > y]; both are false when an operand is a NaN. *)
Definition ltb (x y : double) : bool := SFltb x y.
Definition gtb (x y : double) : bool := SFltb y x.

(** [x == y]: false when an operand is a NaN, true on zeros of either sign. *)
Definition eqb (x y : double) : bool := SFeqb x y.

(** [double(n)] for an [int n]: every 32-bit integer is a double. *)
Definition of_int (n : Z) : double := binary_normalize prec emax n 0 false.

(** The integer part of a finite double (rounding toward zero). *)
Definition trunc (x : double) : option Z :=
  match x with
  | S754_zero _ => Some 0
  | S754_finite s m e =>
      Some (cond_Zopp s
              (match e with
               | Zneg p => Z.shiftr (Zpos m) (Zpos p)
               | _ => Z.shiftl (Zpos m) e
               end))
  | _ => None
  end.

Definition int_min : Z := - 2 ^ 31.
Definition int_max : Z := 2 ^ 31 - 1.

(** The conversion of a double to [int]: the integer part when it is an
    [int], nothing otherwise (the conversion is then undefined). *)
Definition to_int (x : double) : option Z :=
  match trunc x with
  | Some n => if (int_min <=? n) && (n <=? int_max) then Some n else None
  | None => None
  end.

(** The double nearest to [n / d], as a decimal literal is read. *)
Definition ratio (n d : Z) : double := div (of_int n) (of_int d).

End Double.

Abbreviation double := Double.double.

(** ** Outcomes of a call

    A call returns ([Ok]), stops the process on a failed [CHECK] ([Fatal]),
    or reads a vector out of range or a variable that was never written
    ([Undefined]). *)

Inductive result (A : Type) : Type :=
  | Ok (a : A)
  | Fatal
  | Undefined.

Arguments Ok {A} a.
Arguments Fatal {A}.
Arguments Undefined {A}.

#[global] Instance result_ret : MRet result := fun _ a => Ok a.
#[global] Instance result_bind : MBind result := fun _ _ f r =>
  match r with
  | Ok a => f a
  | Fatal => Fatal
  | Undefined => Undefined
  end.

(** [v[k]] on a [std::vector]. *)
Definition at_ {A : Type} (v : list A) (k : nat) : result A :=
  match v !! k with
  | Some x => Ok x
  | None => Undefined
  end.

(** The value of a local variable, which may not have been written yet. *)
Definition read_local {A : Type} (x : option A) : result A :=
  match x with
  | Some v => Ok v
  | None => Undefined
  end.

(** ** Matrices *)

Definition Mat : Type := list (list double).

Definition zeros (rows cols : nat) : Mat :=
  replicate rows (replicate cols Double.zero).

Definition eye (rows cols : nat) : Mat :=
  (fun i => (fun j => if Nat.eqb i j then Double.one else Double.zero) <$> seq 0 cols)
    <$> seq 0 rows.

(** [m.at<double>(r, c) = v]; every use in this file is in range. *)
Definition mat_set (r c : nat) (v : double) (m : Mat) : Mat :=
  alter (fun row => <[c := v]> row) r m.

(** The sum of products of a row and a column, accumulated left to right. *)
Definition dot (xs ys : list double) : double :=
  match zip_with Double.mul xs ys with
  | [] => Double.zero
  | p :: ps => foldl Double.add p ps
  end.

Definition column (m : Mat) (j : nat) : list double :=
  omap (fun row => row !! j) m.

Definition rows (m : Mat) : nat := length m.
Definition cols (m : Mat) : nat := length (default [] (head m)).

(** The product of matrices, row by column. *)
Definition mat_mul (a b : Mat) : Mat :=
  (fun row => (fun j => dot row (column b j)) <$> seq 0 (cols b)) <$> a.

(** The sum of matrices, entry by entry. *)
Definition mat_add (a b : Mat) : Mat :=
  zip_with (zip_with Double.add) a b.

(** [a * b] and [a + b] on [cv::Mat]: OpenCV raises an error, and the call
    does not return, when the sizes do not fit. The parser is called with a
    3x3 rotation and a 3x1 translation; a 1x1 operand of a sum, which OpenCV
    takes as a scalar, is outside these inputs. *)
Definition cv_mul (a b : Mat) : result Mat :=
  if Nat.eqb (cols a) (rows b) then Ok (mat_mul a b) else Fatal.

Definition cv_add (a b : Mat) : result Mat :=
  if Nat.eqb (rows a) (rows b) && Nat.eqb (cols a) (cols b)
  then Ok (mat_add a b) else Fatal.

(** ** The camera parameters *)

(** [gtsam::Pose3]: a rotation (3x3) and a translation (3x1). *)
Record Pose3 : Type := { rotation : Mat; translation : Mat }.

(** [gtsam::Cal3DS2], built from nine scalars. *)
Record Cal3DS2 : Type := {
  fx : double; fy : double; skew : double; u0 : double; v0 : double;
  k1 : double; k2 : double; p1 : double; p2 : double
}.

(** [cv::Size]. *)
Record Size : Type := { width : Z; height : Z }.

Record CameraParams : Type := {
  intrinsics_ : list double;
  body_Pose_cam_ : Pose3;
  calibration_ : Cal3DS2;
  frame_rate_ : double;
  image_size_ : Size;
  camera_matrix_ : Mat;
  distortion_coeff_ : Mat;
  undistRect_map_x_ : Mat;
  undistRect_map_y_ : Mat;
  R_rectify_ : Mat;
  P_ : Mat
}.

(** The camera matrix of four intrinsics, as both parsers build it:
<<
  camera_matrix_ = cv::Mat::eye(3, 3, CV_64F);
  camera_matrix_.at<double>(0, 0) = intrinsics_[0];
  camera_matrix_.at<double>(1, 1) = intrinsics_[1];
  camera_matrix_.at<double>(0, 2) = intrinsics_[2];
  camera_matrix_.at<double>(1, 2) = intrinsics_[3];
>> *)
Definition build_camera_matrix (intrinsics : list double) : result Mat :=
  i0 ← at_ intrinsics 0;
  i1 ← at_ intrinsics 1;
  i2 ← at_ intrinsics 2;
  i3 ← at_ intrinsics 3;
  Ok (mat_set 1 2 i3 (mat_set 0 2 i2 (mat_set 1 1 i1 (mat_set 0 0 i0 (eye 3 3))))).

(** The calibration both parsers build: the four intrinsics, skew 0 and the
    coefficients 0 to 3 of [coeff]. *)
Definition build_calibration (intrinsics coeff : list double) : result Cal3DS2 :=
  i0 ← at_ intrinsics 0;
  i1 ← at_ intrinsics 1;
  i2 ← at_ intrinsics 2;
  i3 ← at_ intrinsics 3;
  c0 ← at_ coeff 0;
  c1 ← at_ coeff 1;
  c2 ← at_ coeff 2;
  c3 ← at_ coeff 3;
  Ok {| fx := i0; fy := i1; skew := Double.zero; u0 := i2; v0 := i3;
        k1 := c0; k2 := c1; p1 := c2; p2 := c3 |}.

(** <<for (int k = 0; k < n; k++) m.at<double>(0, k) = src[k];>>
    started at [k]. *)
Fixpoint fill_row (n k : nat) (src : list double) (m : Mat) : result Mat :=
  match n with
  | O => Ok m
  | S n' => v ← at_ src k; fill_row n' (S k) src (mat_set 0 k v m)
  end.

(** ** The structured (YAML) format *)

(** What [cv::FileStorage] yields for the keys [parseYAML] reads. A missing
    sequence reads as the empty vector, a missing integer as 0. *)
Record FileStorage : Type := {
  fs_marker : bool;
  fs_intrinsics : list double;
  fs_distortion_coefficients : list double;
  fs_resolution : list Z;
  fs_rate_hz : Z;
  fs_T_BS_rows : Z;
  fs_T_BS_cols : Z;
  fs_T_BS_data : list double
}.

(** Modelled from the spec: [UtilsOpenCV::safeOpenCVFileStorage] is not among
    the sources. The file must carry the format marker as its first line;
    absence is a fatal parse failure. *)
Definition safeOpenCVFileStorage (fs : FileStorage) : result unit :=
  if fs_marker fs then Ok tt else Fatal.

(** Modelled from the spec: [UtilsOpenCV::Vec2pose] is not among the sources.
    It reshapes the flattened sequence, row-major, into a rotation and a
    translation: entry (r, c) is [vec[r * n_cols + c]], the rotation is the
    block of rows and columns 0 to 2 and the translation is column 3 of the
    rows 0 to 2. *)
Definition Vec2pose (vec : list double) (n_rows n_cols : Z) : result Pose3 :=
  let entry (r c : Z) : result double :=
    if (r <? n_rows) && (c <? n_cols)
    then at_ vec (Z.to_nat (r * n_cols + c)) else Undefined in
  let row (r : Z) : result (list double) :=
    a ← entry r 0; b ← entry r 1; c ← entry r 2; Ok [a; b; c] in
  r0 ← row 0; r1 ← row 1; r2 ← row 2;
  t0 ← entry 0 3; t1 ← entry 1 3; t2 ← entry 2 3;
  Ok {| rotation := [r0; r1; r2]; translation := [[t0]; [t1]; [t2]] |}.

(** [CameraParams::parseYAML]: the value returned and the object after the
    call, from the object [this] before it. *)
Definition parseYAML (this : CameraParams) (fs : FileStorage)
  : result (bool * CameraParams) :=
  _ ← safeOpenCVFileStorage fs;
  (* Intrinsics. *)
  let intrinsics := fs_intrinsics fs in
  (* Distortion coefficients, in the OpenCV format. *)
  let distortion_coeff4_ := fs_distortion_coefficients fs in
  distortion_coeff ← fill_row 4 0 distortion_coeff4_ (zeros 1 5);
  (* Camera resolution. *)
  let resolution := fs_resolution fs in
  w ← at_ resolution 0;
  h ← at_ resolution 1;
  let image_size := {| width := w; height := h |} in
  (* Camera frame rate. *)
  let rate := fs_rate_hz fs in
  let frame_rate := Double.div Double.one (Double.of_int rate) in
  (* Camera pose with respect to the body. *)
  body_Pose_cam ← Vec2pose (fs_T_BS_data fs) (fs_T_BS_rows fs) (fs_T_BS_cols fs);
  (* Intrinsics, in the OpenCV format. *)
  camera_matrix ← build_camera_matrix intrinsics;
  calibration ← build_calibration intrinsics distortion_coeff4_;
  Ok (true,
      {| intrinsics_ := intrinsics;
         body_Pose_cam_ := body_Pose_cam;
         calibration_ := calibration;
         frame_rate_ := frame_rate;
         image_size_ := image_size;
         camera_matrix_ := camera_matrix;
         distortion_coeff_ := distortion_coeff;
         undistRect_map_x_ := undistRect_map_x_ this;
         undistRect_map_y_ := undistRect_map_y_ this;
         R_rectify_ := R_rectify_ this;
         P_ := P_ this |}).

(** Modelled from the spec: the constructor of [CameraParams] is in
    [CameraParams.h], which is not among the sources. The object is
    constructed empty: no intrinsics, empty matrices, a zero size. *)
Definition fresh : CameraParams :=
  {| intrinsics_ := [];
     body_Pose_cam_ := {| rotation := eye 3 3; translation := zeros 3 1 |};
     calibration_ := {| fx := Double.zero; fy := Double.zero; skew := Double.zero;
                        u0 := Double.zero; v0 := Double.zero;
                        k1 := Double.zero; k2 := Double.zero;
                        p1 := Double.zero; p2 := Double.zero |};
     frame_rate_ := Double.zero;
     image_size_ := {| width := 0; height := 0 |};
     camera_matrix_ := [];
     distortion_coeff_ := [];
     undistRect_map_x_ := [];
     undistRect_map_y_ := [];
     R_rectify_ := [];
     P_ := [] |}.

(** Scenario 1 of the spec. *)
Definition euroc_yaml : FileStorage :=
  {| fs_marker := true;
     fs_intrinsics := [Double.ratio 4586 10; Double.ratio 4573 10;
                       Double.ratio 3672 10; Double.ratio 2484 10];
     fs_distortion_coefficients :=
       [Double.ratio (-28) 100; Double.ratio 7 100;
        Double.ratio 2 10000; Double.ratio 2 100000];
     fs_resolution := [752; 480];
     fs_rate_hz := 20;
     fs_T_BS_rows := 4;
     fs_T_BS_cols := 4;
     fs_T_BS_data := concat (eye 4 4) |}.

(** ** The legacy (KITTI) text format *)

(** What an extraction [ss >> value] of a double meets: a number, or
    characters that are not one. *)
Inductive token : Type :=
  | Num (d : double)
  | Junk.

(** A line as [getline] and [ss >> label] give it: empty, or its first word
    (empty when the line holds white space only) and what follows the word. *)
Inductive line : Type :=
  | Empty
  | Text (label : string) (rest : list token).

(** The [std::stringstream] after the label: what is left to read and whether
    an extraction failed. *)
Record sstream : Type := { toks : list token; failed : bool }.

(** [ss >> value]: the stream and the variable after it. Nothing is written
    once the stream has failed or at the end of the line; a word that is not
    a number writes 0. *)
Definition extract (ss : sstream) (value : option double)
  : sstream * option double :=
  if failed ss then (ss, value)
  else match toks ss with
       | [] => ({| toks := []; failed := true |}, value)
       | Num d :: ts => ({| toks := ts; failed := false |}, Some d)
       | Junk :: ts => ({| toks := Junk :: ts; failed := true |}, Some Double.zero)
       end.

(** <<while (ss >> value) v.push_back(value);>> on the stream after the
    label. *)
Fixpoint push_back_all (ts : list token) (v : list double) : list double :=
  match ts with
  | Num d :: ts' => push_back_all ts' (v ++ [d])
  | _ => v
  end.

(** <<for (int i = 0; i < n; i++) { ss >> value; m.at<double>(i / w, i % w) = value; }>>
    started at [i]. *)
Fixpoint read_entries (n i w : nat) (ss : sstream) (value : option double) (m : Mat)
  : result Mat :=
  match n with
  | O => Ok m
  | S n' =>
      let '(ss', value') := extract ss value in
      v ← read_local value';
      read_entries n' (S i) w ss' value' (mat_set (i / w) (i mod w) v m)
  end.

(** Modelled from the spec: [UtilsOpenCV::Cvmats2pose] is not among the
    sources. The pose is the rotation and the translation it is given. *)
Definition Cvmats2pose (R T : Mat) : Pose3 :=
  {| rotation := R; translation := T |}.

(** What the read loop of [parseKITTICalib] updates. *)
Record scan : Type := {
  params : CameraParams;
  cvR : Mat;
  cvT : Mat;
  distortion_coeff5_ : list double
}.

Definition set_image_size (sz : Size) (c : CameraParams) : CameraParams :=
  {| intrinsics_ := intrinsics_ c; body_Pose_cam_ := body_Pose_cam_ c;
     calibration_ := calibration_ c; frame_rate_ := frame_rate_ c;
     image_size_ := sz; camera_matrix_ := camera_matrix_ c;
     distortion_coeff_ := distortion_coeff_ c;
     undistRect_map_x_ := undistRect_map_x_ c;
     undistRect_map_y_ := undistRect_map_y_ c;
     R_rectify_ := R_rectify_ c; P_ := P_ c |}.

Definition set_intrinsics (i : list double) (k : Mat) (c : CameraParams) : CameraParams :=
  {| intrinsics_ := i; body_Pose_cam_ := body_Pose_cam_ c;
     calibration_ := calibration_ c; frame_rate_ := frame_rate_ c;
     image_size_ := image_size_ c; camera_matrix_ := k;
     distortion_coeff_ := distortion_coeff_ c;
     undistRect_map_x_ := undistRect_map_x_ c;
     undistRect_map_y_ := undistRect_map_y_ c;
     R_rectify_ := R_rectify_ c; P_ := P_ c |}.

Definition set_distortion_coeff (d : Mat) (c : CameraParams) : CameraParams :=
  {| intrinsics_ := intrinsics_ c; body_Pose_cam_ := body_Pose_cam_ c;
     calibration_ := calibration_ c; frame_rate_ := frame_rate_ c;
     image_size_ := image_size_ c; camera_matrix_ := camera_matrix_ c;
     distortion_coeff_ := d;
     undistRect_map_x_ := undistRect_map_x_ c;
     undistRect_map_y_ := undistRect_map_y_ c;
     R_rectify_ := R_rectify_ c; P_ := P_ c |}.

Definition set_frame_rate (r : double) (c : CameraParams) : CameraParams :=
  {| intrinsics_ := intrinsics_ c; body_Pose_cam_ := body_Pose_cam_ c;
     calibration_ := calibration_ c; frame_rate_ := r;
     image_size_ := image_size_ c; camera_matrix_ := camera_matrix_ c;
     distortion_coeff_ := distortion_coeff_ c;
     undistRect_map_x_ := undistRect_map_x_ c;
     undistRect_map_y_ := undistRect_map_y_ c;
     R_rectify_ := R_rectify_ c; P_ := P_ c |}.

Definition set_pose_calibration (p : Pose3) (k : Cal3DS2) (c : CameraParams) : CameraParams :=
  {| intrinsics_ := intrinsics_ c; body_Pose_cam_ := p;
     calibration_ := k; frame_rate_ := frame_rate_ c;
     image_size_ := image_size_ c; camera_matrix_ := camera_matrix_ c;
     distortion_coeff_ := distortion_coeff_ c;
     undistRect_map_x_ := undistRect_map_x_ c;
     undistRect_map_y_ := undistRect_map_y_ c;
     R_rectify_ := R_rectify_ c; P_ := P_ c |}.

(** The label ["<prefix>_<cam_id>:"]. *)
Definition label_of (prefix cam_id : string) : string :=
  (prefix ++ "_" ++ cam_id ++ ":")%string.

(** The conversion of a double argument of [cv::Size] to [int]. *)
Definition int_of_double (x : double) : result Z :=
  match Double.to_int x with
  | Some n => Ok n
  | None => Undefined
  end.

(** One turn of the read loop on a line. *)
Definition scan_line (cam_id : string) (st : scan) (l : line) : result scan :=
  match l with
  | Empty => Ok st
  | Text label rest =>
      let ss := {| toks := rest; failed := false |} in
      if String.eqb label (label_of "S" cam_id) then
        (* this entry gives the image size *)
        let '(ss1, w) := extract ss None in
        let '(ss2, h) := extract ss1 None in
        w ← read_local w;
        h ← read_local h;
        w ← int_of_double w;
        h ← int_of_double h;
        Ok {| params := set_image_size {| width := w; height := h |} (params st);
              cvR := cvR st; cvT := cvT st;
              distortion_coeff5_ := distortion_coeff5_ st |}
      else if String.eqb label (label_of "K" cam_id) then
        (* this entry gives the camera matrix *)
        let K_vector := push_back_all rest [] in
        k0 ← at_ K_vector 0;
        k4 ← at_ K_vector 4;
        k2 ← at_ K_vector 2;
        k5 ← at_ K_vector 5;
        let intrinsics := [k0; k4; k2; k5] in
        camera_matrix ← build_camera_matrix intrinsics;
        Ok {| params := set_intrinsics intrinsics camera_matrix (params st);
              cvR := cvR st; cvT := cvT st;
              distortion_coeff5_ := distortion_coeff5_ st |}
      else if String.eqb label (label_of "D" cam_id) then
        (* this entry gives the distortion coefficients *)
        let coeff5 := push_back_all rest (distortion_coeff5_ st) in
        distortion_coeff ← fill_row 5 0 coeff5 (zeros 1 5);
        Ok {| params := set_distortion_coeff distortion_coeff (params st);
              cvR := cvR st; cvT := cvT st;
              distortion_coeff5_ := coeff5 |}
      else if String.eqb label (label_of "R" cam_id) then
        (* this entry gives the rotation matrix *)
        R ← read_entries 9 0 3 ss None (cvR st);
        Ok {| params := params st; cvR := R; cvT := cvT st;
              distortion_coeff5_ := distortion_coeff5_ st |}
      else if String.eqb label (label_of "T" cam_id) then
        (* this entry gives the translation *)
        T ← read_entries 3 0 1 ss None (cvT st);
        Ok {| params := params st; cvR := cvR st; cvT := T;
              distortion_coeff5_ := distortion_coeff5_ st |}
      else Ok st
  end.

(** The read loop, <<while (!calib_file.eof())>>, on the lines of the file. *)
Fixpoint scan_lines (cam_id : string) (st : scan) (ls : list line) : result scan :=
  match ls with
  | [] => Ok st
  | l :: ls' => st' ← scan_line cam_id st l; scan_lines cam_id st' ls'
  end.

(** [CameraParams::parseKITTICalib]: the value returned and the object after
    the call, from the object [this] before it. [calib_file] is [None] when
    the file cannot be opened. *)
Definition parseKITTICalib (this : CameraParams) (calib_file : option (list line))
    (R_cam_to_imu T_cam_to_imu : Mat) (cam_id : string)
  : result (bool * CameraParams) :=
  (* rate is approx 10 hz *)
  let this := set_frame_rate (Double.div Double.one (Double.of_int 10)) this in
  match calib_file with
  | None => Fatal
  | Some ls =>
      st ← scan_lines cam_id
             {| params := this; cvR := zeros 3 3; cvT := zeros 3 1;
                distortion_coeff5_ := [] |} ls;
      (* Cam pose wrt to body. *)
      R ← cv_mul R_cam_to_imu (cvR st);
      T ← cv_add T_cam_to_imu (cvT st);
      let body_Pose_cam := Cvmats2pose R T in
      calibration ← build_calibration (intrinsics_ (params st)) (distortion_coeff5_ st);
      Ok (true, set_pose_calibration body_Pose_cam calibration (params st))
  end.

(** Scenario 2 of the spec. *)
Definition kitti_txt : list line :=
  [ Text "S_0:" [Num (Double.of_int 1242); Num (Double.of_int 375)];
    Text "K_0:" [Num (Double.ratio 7215 10); Num Double.zero; Num (Double.ratio 6096 10);
                 Num Double.zero; Num (Double.ratio 7215 10); Num (Double.ratio 1728 10);
                 Num Double.zero; Num Double.zero; Num Double.one];
    Text "D_0:" [Num (Double.ratio (-37) 100); Num (Double.ratio 2 10);
                 Num Double.zero; Num Double.zero; Num Double.zero];
    Text "R_0:" (Num <$> concat (eye 3 3));
    Text "T_0:" (Num <$> concat (zeros 3 1)) ].

(** ** Equality up to a tolerance *)

Section Equality.

(** The comparisons of [gtsam::Pose3], of [gtsam::Cal3DS2] and of matrices
    ([UtilsOpenCV::CvMatCmp], called with its default tolerance) are not
    part of [CameraParams.cpp]. *)
Variable Pose3_equals : Pose3 -> Pose3 -> double -> bool.
Variable Cal3DS2_equals : Cal3DS2 -> Cal3DS2 -> double -> bool.
Variable CvMatCmp : Mat -> Mat -> bool.

(** The loop over [intrinsics_], started at [i]; [mine] is what is left of
    [intrinsics_] from [i] on:
<<
for (size_t i = 0; i < intrinsics_.size(); i++) {
  if (std::fabs(intrinsics_[i] - camPar.intrinsics_[i]) > tol) {
    areIntrinsicEqual = false;
    break;
  }
}
>> *)
Fixpoint areIntrinsicEqual (mine : list double) (i : nat) (theirs : list double)
    (tol : double) : result bool :=
  match mine with
  | [] => Ok true
  | x :: mine' =>
      y ← at_ theirs i;
      if Double.gtb (Double.fabs (Double.sub x y)) tol then Ok false
      else areIntrinsicEqual mine' (S i) theirs tol
  end.

(** [CameraParams::equals]. *)
Definition equals (this camPar : CameraParams) (tol : double) : result bool :=
  areIntrinsicEqual ← areIntrinsicEqual (intrinsics_ this) 0 (intrinsics_ camPar) tol;
  Ok (areIntrinsicEqual &&
      Pose3_equals (body_Pose_cam_ this) (body_Pose_cam_ camPar) tol &&
      Double.ltb (Double.fabs (Double.sub (frame_rate_ this) (frame_rate_ camPar))) tol &&
      (width (image_size_ this) =? width (image_size_ camPar)) &&
      (height (image_size_ this) =? height (image_size_ camPar)) &&
      Cal3DS2_equals (calibration_ this) (calibration_ camPar) tol &&
      CvMatCmp (camera_matrix_ this) (camera_matrix_ camPar) &&
      CvMatCmp (distortion_coeff_ this) (distortion_coeff_ camPar) &&
      CvMatCmp (undistRect_map_x_ this) (undistRect_map_x_ camPar) &&
      CvMatCmp (undistRect_map_y_ this) (undistRect_map_y_ camPar) &&
      CvMatCmp (R_rectify_ this) (R_rectify_ camPar) &&
      CvMatCmp (P_ this) (P_ camPar)).

End Equality.

(** A comparison that accepts a larger tolerance whenever it accepts a
    smaller one. *)
Definition tolerance_monotone {A : Type} (eq : A -> A -> double -> bool) : Prop :=
  forall a b t t', eq a b t = true -> Double.gtb t' t = true -> eq a b t' = true.

(** Comparisons to run [equals] with: scalars are equal when they differ by at
    most the tolerance, matrices when they have the same entries. *)
Definition within (tol x y : double) : bool :=
  negb (Double.gtb (Double.fabs (Double.sub x y)) tol).

Fixpoint all2 {A : Type} (p : A -> A -> bool) (xs ys : list A) : bool :=
  match xs, ys with
  | [], [] => true
  | x :: xs', y :: ys' => p x y && all2 p xs' ys'
  | _, _ => false
  end.

Definition Mat_within (a b : Mat) (tol : double) : bool :=
  all2 (all2 (within tol)) a b.

Definition Pose3_within (p q : Pose3) (tol : double) : bool :=
  Mat_within (rotation p) (rotation q) tol &&
  Mat_within (translation p) (translation q) tol.

Definition Cal3DS2_within (a b : Cal3DS2) (tol : double) : bool :=
  within tol (fx a) (fx b) && within tol (fy a) (fy b) &&
  within tol (skew a) (skew b) &&
  within tol (u0 a) (u0 b) && within tol (v0 a) (v0 b) &&
  within tol (k1 a) (k1 b) && within tol (k2 a) (k2 b) &&
  within tol (p1 a) (p1 b) && within tol (p2 a) (p2 b).

(** Modelled from the spec: [UtilsOpenCV::CvMatCmp] is not among the sources.
    Two matrices are equal when they match elementwise. *)
Definition CvMatCmp_elementwise (a b : Mat) : bool :=
  all2 (all2 Double.eqb) a b.

(** ** Notions the properties are stated with *)

(** The structured input with another [rate_hz]. *)
Definition with_rate_hz (rate : Z) (fs : FileStorage) : FileStorage :=
  {| fs_marker := fs_marker fs;
     fs_intrinsics := fs_intrinsics fs;
     fs_distortion_coefficients := fs_distortion_coefficients fs;
     fs_resolution := fs_resolution fs;
     fs_rate_hz := rate;
     fs_T_BS_rows := fs_T_BS_rows fs;
     fs_T_BS_cols := fs_T_BS_cols fs;
     fs_T_BS_data := fs_T_BS_data fs |}.

(** The camera matrix of the intrinsics fx, fy, cx, cy. *)
Definition camera_matrix_of (fx fy cx cy : double) : Mat :=
  [ [fx; Double.zero; cx];
    [Double.zero; fy; cy];
    [Double.zero; Double.zero; Double.one] ].

(** The camera matrix of a model is the one of its intrinsics. *)
Definition camera_matrix_derived (m : CameraParams) : Prop :=
  exists fx fy cx cy,
    intrinsics_ m !! 0%nat = Some fx /\ intrinsics_ m !! 1%nat = Some fy /\
    intrinsics_ m !! 2%nat = Some cx /\ intrinsics_ m !! 3%nat = Some cy /\
    camera_matrix_ m = camera_matrix_of fx fy cx cy.

(** A line carries the label [lbl]. *)
Definition has_label (lbl : string) (l : line) : bool :=
  match l with
  | Empty => false
  | Text label _ => String.eqb label lbl
  end.

(** A line that is not blank and whose label is none of the five of the
    camera. *)
Definition unrecognized (cam_id : string) (l : line) : bool :=
  match l with
  | Empty => false
  | Text _ _ =>
      negb (has_label (label_of "S" cam_id) l || has_label (label_of "K" cam_id) l ||
            has_label (label_of "D" cam_id) l || has_label (label_of "R" cam_id) l ||
            has_label (label_of "T" cam_id) l)
  end.

(** The file without its lines of label [lbl]. *)
Definition without (lbl : string) (ls : list line) : list line :=
  List.filter (fun l => negb (has_label lbl l)) ls.

(** No line of the file has the label [lbl]. *)
Definition absent (lbl : string) (ls : list line) : Prop :=
  Forall (fun l => has_label lbl l = false) ls.

(** What follows the label [lbl] on a line that carries it. *)
Definition line_record (lbl : string) (l : line) : option (list token) :=
  match l with
  | Text label rest => if String.eqb label lbl then Some rest else None
  | Empty => None
  end.

(** The record of a label: what follows the label on the last line that
    carries it. *)
Fixpoint record (lbl : string) (ls : list line) : option (list token) :=
  match ls with
  | [] => None
  | l :: ls' =>
      match record lbl ls' with
      | Some r => Some r
      | None => line_record lbl l
      end
  end.

(** The values [n] extractions in a row assign to [value]. *)
Fixpoint read_values (n : nat) (ss : sstream) (value : option double)
  : result (list double) :=
  match n with
  | O => Ok []
  | S n' =>
      let '(ss', value') := extract ss value in
      v ← read_local value';
      vs ← read_values n' ss' value';
      Ok (v :: vs)
  end.

(** The matrix of [r] rows of width [w] whose entries are [vs], row-major. *)
Fixpoint reshape (w r : nat) (vs : list double) : Mat :=
  match r with
  | O => []
  | S r' => take w vs :: reshape w r' (drop w vs)
  end.

(** The matrix after the entries [i], [i + 1], ... of a matrix of width [w]
    were assigned the values [vs]. *)
Fixpoint write_all (i w : nat) (vs : list double) (m : Mat) : Mat :=
  match vs with
  | [] => m
  | v :: vs' => write_all (S i) w vs' (mat_set (i / w) (i mod w) v m)
  end.

(** A matrix of [r] rows and [c] columns. *)
Definition shaped (r c : nat) (m : Mat) : Prop :=
  length m = r /\ Forall (fun row => length row = c) m.

(** The matrix a record of [r * c] numbers stands for; the zero matrix when
    there is no record. *)
Definition parsed_matrix (r c : nat) (rec : option (list token)) : result Mat :=
  match rec with
  | None => Ok (zeros r c)
  | Some ts =>
      vs ← read_values (r * c) {| toks := ts; failed := false |} None;
      Ok (reshape c r vs)
  end.

(** The numbers of the lines of label [D], in the order of the file. *)
Fixpoint distortion_values (cam_id : string) (ls : list line) : list double :=
  match ls with
  | [] => []
  | l :: ls' =>
      match l with
      | Text label rest =>
          if String.eqb label (label_of "D" cam_id)
          then push_back_all rest [] ++ distortion_values cam_id ls'
          else distortion_values cam_id ls'
      | Empty => distortion_values cam_id ls'
      end
  end.

(** A finite double in canonical form, as the extraction of a number from
    text gives. *)
Definition finite (x : double) : bool :=
  match x with
  | S754_zero _ => true
  | S754_finite _ m e => bounded Double.prec Double.emax m e
  | _ => false
  end.

(** A finite double other than -0: one that multiplying by 1 and adding 0
    leave as it is, sign of zero included. *)
Definition regular (x : double) : bool :=
  match x with
  | S754_zero s => negb s
  | _ => finite x
  end.

Definition all_finite (m : Mat) : Prop :=
  Forall (Forall (fun x => finite x = true)) m.

Definition all_regular (m : Mat) : Prop :=
  Forall (Forall (fun x => regular x = true)) m.

(** [a == b] on every entry of two matrices of the same size. *)
Definition mat_eqb (a b : Mat) : bool := all2 (all2 Double.eqb) a b.

Definition is_zero (x : double) : bool :=
  match x with
  | S754_zero _ => true
  | _ => false
  end.

(** The turns of the read loop that return, as a relation: [scan_step cam_id
    st l st'] when the turn on the line [l] takes the state [st] to [st']. *)
Inductive scan_step (cam_id : string) (st : scan) : line -> scan -> Prop :=
  | step_empty :
      scan_step cam_id st Empty st
  | step_unrecognized label rest :
      unrecognized cam_id (Text label rest) = true ->
      scan_step cam_id st (Text label rest) st
  | step_S rest ss1 ss2 wd hd w h :
      extract {| toks := rest; failed := false |} None = (ss1, Some wd) ->
      extract ss1 None = (ss2, Some hd) ->
      Double.to_int wd = Some w ->
      Double.to_int hd = Some h ->
      scan_step cam_id st (Text (label_of "S" cam_id) rest)
        {| params := set_image_size {| width := w; height := h |} (params st);
           cvR := cvR st; cvT := cvT st;
           distortion_coeff5_ := distortion_coeff5_ st |}
  | step_K rest k0 k4 k2 k5 :
      push_back_all rest [] !! 0%nat = Some k0 ->
      push_back_all rest [] !! 4%nat = Some k4 ->
      push_back_all rest [] !! 2%nat = Some k2 ->
      push_back_all rest [] !! 5%nat = Some k5 ->
      scan_step cam_id st (Text (label_of "K" cam_id) rest)
        {| params := set_intrinsics [k0; k4; k2; k5] (camera_matrix_of k0 k4 k2 k5)
                       (params st);
           cvR := cvR st; cvT := cvT st;
           distortion_coeff5_ := distortion_coeff5_ st |}
  | step_D rest dc :
      fill_row 5 0 (push_back_all rest (distortion_coeff5_ st)) (zeros 1 5) = Ok dc ->
      scan_step cam_id st (Text (label_of "D" cam_id) rest)
        {| params := set_distortion_coeff dc (params st);
           cvR := cvR st; cvT := cvT st;
           distortion_coeff5_ := push_back_all rest (distortion_coeff5_ st) |}
  | step_R rest R :
      read_entries 9 0 3 {| toks := rest; failed := false |} None (cvR st) = Ok R ->
      scan_step cam_id st (Text (label_of "R" cam_id) rest)
        {| params := params st; cvR := R; cvT := cvT st;
           distortion_coeff5_ := distortion_coeff5_ st |}
  | step_T rest T :
      read_entries 3 0 1 {| toks := rest; failed := false |} None (cvT st) = Ok T ->
      scan_step cam_id st (Text (label_of "T" cam_id) rest)
        {| params := params st; cvR := cvR st; cvT := T;
           distortion_coeff5_ := distortion_coeff5_ st |}.

(** Scenario 3 of the spec: the file of scenario 2 with a header, a blank line
    and the records of another camera in between. *)
Definition kitti_two_cameras_txt : list line :=
  [ Text "calib_time:" [Junk];
    Text "S_0:" [Num (Double.of_int 1242); Num (Double.of_int 375)];
    Text "S_1:" [Num (Double.of_int 640); Num (Double.of_int 480)];
    Text "K_0:" [Num (Double.ratio 7215 10); Num Double.zero; Num (Double.ratio 6096 10);
                 Num Double.zero; Num (Double.ratio 7215 10); Num (Double.ratio 1728 10);
                 Num Double.zero; Num Double.zero; Num Double.one];
    Text "K_1:" [Num Double.one];
    Empty;
    Text "D_0:" [Num (Double.ratio (-37) 100); Num (Double.ratio 2 10);
                 Num Double.zero; Num Double.zero; Num Double.zero];
    Text "D_1:" [Num Double.one; Num Double.one];
    Text "R_0:" (Num <$> concat (eye 3 3));
    Text "R_01:" (Num <$> concat (zeros 3 3));
    Text "T_0:" (Num <$> concat (zeros 3 1));
    Text "T_1:" [Num Double.one; Num Double.one; Num Double.one];
    Text "" [] ].

(** Once a line of label D was read, [distortion_coeff_] holds the first five
    numbers of [distortion_coeff5_]. *)
Definition distortion_stored (st : scan) : Prop :=
  distortion_coeff5_ st = [] \/
  exists c0 c1 c2 c3 c4 more,
    distortion_coeff5_ st = c0 :: c1 :: c2 :: c3 :: c4 :: more /\
    distortion_coeff_ (params st) = [[c0; c1; c2; c3; c4]].

(** A call that returns. *)
Definition returns {A : Type} (r : result A) : Prop := exists a, r = Ok a.

(** The state of the read loop with another image size, rotation or
    translation. *)
Definition with_image_size (sz : Size) (st : scan) : scan :=
  {| params := set_image_size sz (params st); cvR := cvR st; cvT := cvT st;
     distortion_coeff5_ := distortion_coeff5_ st |}.

Definition with_cvR (R : Mat) (st : scan) : scan :=
  {| params := params st; cvR := R; cvT := cvT st;
     distortion_coeff5_ := distortion_coeff5_ st |}.

Definition with_cvT (T : Mat) (st : scan) : scan :=
  {| params := params st; cvR := cvR st; cvT := T;
     distortion_coeff5_ := distortion_coeff5_ st |}.

(** Scenario 2 without its line of label K, and without its line of label D. *)
Definition kitti_no_K_txt : list line := without "K_0:" kitti_txt.
Definition kitti_no_D_txt : list line := without "D_0:" kitti_txt.

(** The state in which the read loop starts on a model constructed empty. *)
Definition scan_start : scan :=
  {| params := set_frame_rate (Double.div Double.one (Double.of_int 10)) fresh;
     cvR := zeros 3 3; cvT := zeros 3 1; distortion_coeff5_ := [] |}.

(** The models the two scenarios give. *)
Definition euroc_model : CameraParams :=
  Eval vm_compute in
    match parseYAML fresh euroc_yaml with
    | Ok (_, m) => m
    | _ => fresh
    end.

Definition kitti_model : CameraParams :=
  Eval vm_compute in
    match parseKITTICalib fresh (Some kitti_txt) (eye 3 3) (zeros 3 1) "0" with
    | Ok (_, m) => m
    | _ => fresh
    end.

(** ** Notions for the further properties *)

(** A double that is neither an infinity nor a NaN. *)
Definition is_number (x : double) : bool :=
  match x with
  | S754_zero _ | S754_finite _ _ _ => true
  | _ => false
  end.

(** The model with other intrinsics. *)
Definition with_intrinsics (i : list double) (c : CameraParams) : CameraParams :=
  set_intrinsics i (camera_matrix_ c) c.

(** The comparisons [equals] calls accept the model compared with itself. *)
Definition self_accepted (Pose3_equals : Pose3 -> Pose3 -> double -> bool)
    (Cal3DS2_equals : Cal3DS2 -> Cal3DS2 -> double -> bool)
    (CvMatCmp : Mat -> Mat -> bool) (m : CameraParams) (tol : double) : Prop :=
  Pose3_equals (body_Pose_cam_ m) (body_Pose_cam_ m) tol = true /\
  Cal3DS2_equals (calibration_ m) (calibration_ m) tol = true /\
  Forall (fun x => CvMatCmp x x = true)
    [camera_matrix_ m; distortion_coeff_ m; undistRect_map_x_ m;
     undistRect_map_y_ m; R_rectify_ m; P_ m].

(** A comparison that does not depend on the order of its operands. *)
Definition symmetric3 {A : Type} (eq : A -> A -> double -> bool) : Prop :=
  forall a b t, eq a b t = eq b a t.

Definition symmetric2 (eq : Mat -> Mat -> bool) : Prop :=
  forall a b, eq a b = eq b a.

(** The model of scenario 1 with one more intrinsic. *)
Definition euroc_model_5 : CameraParams :=
  with_intrinsics (intrinsics_ euroc_model ++ [Double.one]) euroc_model.

(** The model [m] with the rectification fields of [src]. *)
Definition with_rectification (src m : CameraParams) : CameraParams :=
  {| intrinsics_ := intrinsics_ m; body_Pose_cam_ := body_Pose_cam_ m;
     calibration_ := calibration_ m; frame_rate_ := frame_rate_ m;
     image_size_ := image_size_ m; camera_matrix_ := camera_matrix_ m;
     distortion_coeff_ := distortion_coeff_ m;
     undistRect_map_x_ := undistRect_map_x_ src;
     undistRect_map_y_ := undistRect_map_y_ src;
     R_rectify_ := R_rectify_ src; P_ := P_ src |}.

(** Scenario 1 with a fifth distortion coefficient. *)
Definition euroc_yaml_5 : FileStorage :=
  {| fs_marker := true;
     fs_intrinsics := fs_intrinsics euroc_yaml;
     fs_distortion_coefficients := fs_distortion_coefficients euroc_yaml ++ [Double.one];
     fs_resolution := fs_resolution euroc_yaml;
     fs_rate_hz := fs_rate_hz euroc_yaml;
     fs_T_BS_rows := fs_T_BS_rows euroc_yaml;
     fs_T_BS_cols := fs_T_BS_cols euroc_yaml;
     fs_T_BS_data := fs_T_BS_data euroc_yaml |}.

(** The two doubles the extractions [ss >> width >> height] assign: two
    numbers, or a number and the 0 that a word that is not a number
    stores. *)
Definition first_two (ts : list token) : option (double * double) :=
  match ts with
  | Num w :: Num h :: _ => Some (w, h)
  | Num w :: Junk :: _ => Some (w, Double.zero)
  | _ => None
  end.

(** A line of label K with fewer than six numbers, or a line of label S, R
    or T with nothing after the label. *)
Definition malformed (cam_id : string) (l : line) : bool :=
  match l with
  | Empty => false
  | Text label rest =>
      (String.eqb label (label_of "K" cam_id) &&
       Nat.ltb (length (push_back_all rest [])) 6) ||
      ((String.eqb label (label_of "S" cam_id) ||
        String.eqb label (label_of "R" cam_id) ||
        String.eqb label (label_of "T" cam_id)) &&
       match rest with [] => true | _ => false end)
  end.

(** Scenario 2 followed by one more line of label D, and scenario 2 with a
    line of label K that is too short before the complete one. *)
Definition kitti_two_D_txt : list line :=
  kitti_txt ++ [Text "D_0:" (Num <$> [Double.one; Double.one; Double.one; Double.one;
                                       Double.one])].

Definition kitti_short_K_txt : list line :=
  Text "K_0:" (Num <$> [Double.one; Double.one; Double.one]) :: kitti_txt.

(** The intrinsics and the camera matrix a line of label K gives. *)
Definition K_values (ts : list token) (f : list double * Mat) : Prop :=
  exists k0 k4 k2 k5,
    push_back_all ts [] !! 0%nat = Some k0 /\ push_back_all ts [] !! 4%nat = Some k4 /\
    push_back_all ts [] !! 2%nat = Some k2 /\ push_back_all ts [] !! 5%nat = Some k5 /\
    f = ([k0; k4; k2; k5], camera_matrix_of k0 k4 k2 k5).

(** The image size a line of label S gives. *)
Definition S_values (ts : list token) (sz : Size) : Prop :=
  exists wd hd w h,
    first_two ts = Some (wd, hd) /\
    Double.to_int wd = Some w /\ Double.to_int hd = Some h /\
    sz = {| width := w; height := h |}.

(** The fields of the model that no line of the file writes. *)
Definition unparsed_fields (c : CameraParams) : double * (Mat * Mat * Mat * Mat) :=
  (frame_rate_ c, (undistRect_map_x_ c, undistRect_map_y_ c, R_rectify_ c, P_ c)).


(** Two lines that carry the same one of the five labels of the camera. *)
Definition same_record (cam_id : string) (l1 l2 : line) : bool :=
  existsb (fun p => has_label (label_of p cam_id) l1 && has_label (label_of p cam_id) l2)
    ["S"; "K"; "D"; "R"; "T"]%string.

(** The state of the read loop with other camera parameters. *)
Definition with_params (p : CameraParams) (st : scan) : scan :=
  {| params := p; cvR := cvR st; cvT := cvT st;
     distortion_coeff5_ := distortion_coeff5_ st |}.

(** ** A file with a rotation and a translation that are not trivial *)

(** The records R = (1 ... 9) and T = (10, 20, 30) in the file of scenario 2,
    read with the caller's rotation a quarter turn about the third axis and
    the caller's translation (1, 2, 3). *)
Definition kitti_turned_txt : list line :=
  [ Text "S_0:" [Num (Double.of_int 1242); Num (Double.of_int 375)];
    Text "K_0:" [Num (Double.ratio 7215 10); Num Double.zero; Num (Double.ratio 6096 10);
                 Num Double.zero; Num (Double.ratio 7215 10); Num (Double.ratio 1728 10);
                 Num Double.zero; Num Double.zero; Num Double.one];
    Text "D_0:" [Num (Double.ratio (-37) 100); Num (Double.ratio 2 10);
                 Num Double.zero; Num Double.zero; Num Double.zero];
    Text "R_0:" (Num <$> (Double.of_int <$> [1; 2; 3; 4; 5; 6; 7; 8; 9]));
    Text "T_0:" (Num <$> (Double.of_int <$> [10; 20; 30])) ].

(** The matrix of doubles of a matrix of integers. *)
Definition int_matrix (m : list (list Z)) : Mat :=
  (fun row : list Z => Double.of_int <$> row) <$> m.

Definition quarter_turn : Mat := int_matrix [[0; -1; 0]; [1; 0; 0]; [0; 0; 1]].

Definition offset_123 : Mat := int_matrix [[1]; [2]; [3]].

Definition kitti_turned_model : CameraParams :=
  Eval vm_compute in
    match parseKITTICalib fresh (Some kitti_turned_txt) quarter_turn offset_123 "0" with
    | Ok (_, m) => m
    | _ => fresh
    end.

(** Scenario 1 with three intrinsics only. *)
Definition euroc_yaml_3 : FileStorage :=
  {| fs_marker := true;
     fs_intrinsics := take 3 (fs_intrinsics euroc_yaml);
     fs_distortion_coefficients := fs_distortion_coefficients euroc_yaml;
     fs_resolution := fs_resolution euroc_yaml;
     fs_rate_hz := fs_rate_hz euroc_yaml;
     fs_T_BS_rows := fs_T_BS_rows euroc_yaml;
     fs_T_BS_cols := fs_T_BS_cols euroc_yaml;
     fs_T_BS_data := fs_T_BS_data euroc_yaml |}.

(** * Properties *)

(** ** Doubles *)

Module DoubleFacts.

Ltac compare_cases :=
  repeat match goal with
  | H : context [Z.compare ?x ?y] |- _ => destruct (Z.compare_spec x y)
  | |- context [Z.compare ?x ?y] => destruct (Z.compare_spec x y)
  | H : context [Pos.compare_cont Eq ?x ?y] |- _ =>
      change (Pos.compare_cont Eq x y) with (Pos.compare x y) in *;
      destruct (Pos.compare_spec x y)
  | |- context [Pos.compare_cont Eq ?x ?y] =>
      change (Pos.compare_cont Eq x y) with (Pos.compare x y) in *;
      destruct (Pos.compare_spec x y)
  end.

Ltac by_cases a b c :=
  destruct a as [[]|[]| |[] ? ?], b as [[]|[]| |[] ? ?], c as [[]|[]| |[] ? ?];
  simpl; try congruence; intros; compare_cases; simpl in *; subst;
  try congruence; try lia.

(** [a < b] and [b < c] give [a < c]. *)
Lemma ltb_trans a b c :
  Double.ltb a b = true -> Double.ltb b c = true -> Double.ltb a c = true.
Proof. unfold Double.ltb, SFltb. by_cases a b c. Qed.

(** What does not exceed a tolerance does not exceed a larger one. *)
Lemma gtb_false_mono a t t' :
  Double.gtb a t = false -> Double.gtb t' t = true -> Double.gtb a t' = false.
Proof. unfold Double.gtb, SFltb. by_cases a t t'. Qed.

(** No absolute value is less than zero. *)
Lemma fabs_ltb_zero x : Double.ltb (Double.fabs x) Double.zero = false.
Proof. destruct x as [[]|[]| |[] m e]; reflexivity. Qed.

Lemma shr_fexp_canonical m e :
  canonical_mantissa Double.prec Double.emax m e = true ->
  shr_fexp Double.prec Double.emax (Zpos m) e loc_Exact
  = ({| shr_m := Zpos m; shr_r := false; shr_s := false |}, e).
Proof.
  unfold canonical_mantissa, shr_fexp. intros H%Z.eqb_eq.
  cbn [Zdigits2]. rewrite H, Z.sub_diag. reflexivity.
Qed.

(** [1 * x] is [x] for a finite double in canonical form: the product of
    the mantissas is shifted back by the 52 bits it gained. *)
Lemma mul_one_finite s m e :
  bounded Double.prec Double.emax m e = true ->
  Double.mul Double.one (S754_finite s m e) = S754_finite s m e.
Proof.
  unfold bounded. intros [Hc Hb]%andb_true_iff.
  unfold Double.mul. cbn [SFmul Double.one xorb].
  unfold binary_round_aux.
  assert (E : shr_fexp Double.prec Double.emax
                (Z.pos (4503599627370496 * m)) (-52 + e) loc_Exact
              = ({| shr_m := Zpos m; shr_r := false; shr_s := false |}, e)).
  { unfold shr_fexp.
    assert (D : Zdigits2 (Z.pos (4503599627370496 * m)) + (-52 + e)
                = Z.pos (digits2_pos m) + e).
    { cbv [Pos.mul]. cbn [Zdigits2 digits2_pos]. lia. }
    rewrite D. unfold canonical_mantissa in Hc. apply Z.eqb_eq in Hc. rewrite Hc.
    replace (e - (-52 + e)) with 52 by lia.
    unfold shr. cbn [shr_record_of_loc].
    replace (-52 + e + 52) with e by lia. f_equal. }
  rewrite E. cbn [shr_m loc_of_shr_record round_nearest_even].
  rewrite (shr_fexp_canonical _ _ Hc). cbn [shr_m].
  rewrite Hb. reflexivity.
Qed.

Lemma mul_one_finite' x : finite x = true -> Double.mul Double.one x = x.
Proof.
  destruct x as [[]| | |s m e]; simpl; try discriminate; try reflexivity.
  apply mul_one_finite.
Qed.

Lemma mul_zero_finite x : finite x = true -> is_zero (Double.mul Double.zero x) = true.
Proof. destruct x as [[]| | |s m e]; simpl; try discriminate; reflexivity. Qed.

Lemma regular_finite x : regular x = true -> finite x = true.
Proof. destruct x as [[]| | |s m e]; simpl; try discriminate; auto. Qed.

Lemma add_zero_r x z : regular x = true -> is_zero z = true -> Double.add x z = x.
Proof.
  destruct x as [[]| | |s m e], z as [[]| | |]; simpl; try discriminate; reflexivity.
Qed.

Lemma add_zero_l x z : regular x = true -> is_zero z = true -> Double.add z x = x.
Proof.
  destruct x as [[]| | |s m e], z as [[]| | |]; simpl; try discriminate; reflexivity.
Qed.

Lemma add_zeros z z' :
  is_zero z = true -> is_zero z' = true -> is_zero (Double.add z z') = true.
Proof. destruct z as [[]| | |], z' as [[]| | |]; simpl; try discriminate; reflexivity. Qed.

Lemma eqb_refl x : finite x = true -> Double.eqb x x = true.
Proof.
  destruct x as [[]| | |[] m e]; simpl; try discriminate; try reflexivity; intros _;
    unfold Double.eqb, SFeqb; simpl; rewrite Z.compare_refl;
    change (Pos.compare_cont Eq m m) with (Pos.compare m m);
    rewrite Pos.compare_refl; reflexivity.
Qed.

Lemma eqb_zeros z z' : is_zero z = true -> is_zero z' = true -> Double.eqb z z' = true.
Proof. destruct z as [[]| | |], z' as [[]| | |]; simpl; try discriminate; reflexivity. Qed.

(** A finite double is regular or is -0. *)
Lemma finite_cases x : finite x = true -> regular x = true \/ x = S754_zero true.
Proof. destruct x as [[]| | |s m e]; simpl; auto. Qed.

End DoubleFacts.

(** ** Outcomes *)

Lemma bind_Ok {A B : Type} (r : result A) (k : A -> result B) (b : B) :
  r ≫= k = Ok b -> exists a, r = Ok a /\ k a = Ok b.
Proof. destruct r; simpl; [eauto | discriminate | discriminate]. Qed.

Lemma at_Ok {A : Type} (v : list A) (k : nat) (x : A) : at_ v k = Ok x -> v !! k = Some x.
Proof. unfold at_. destruct (v !! k); congruence. Qed.

Lemma at_lookup {A : Type} (v : list A) (k : nat) (x : A) : v !! k = Some x -> at_ v k = Ok x.
Proof. unfold at_. intros ->. reflexivity. Qed.

(** Splits a hypothesis [x ← r; k = Ok b] into [r = Ok a] and [k a = Ok b]. *)
Ltac ok_inv H :=
  repeat match type of H with
  | _ ≫= _ = Ok _ =>
      let a := fresh "a" in
      let E := fresh "E" in
      apply bind_Ok in H as (a & E & H)
  end.

(** ** The scenarios, run *)

(** Scenario 1: the frame rate is 0.05, the size 752 by 480, and the fifth
    distortion slot is 0. *)
Example euroc_scenario :
  frame_rate_ euroc_model = Double.ratio 5 100 /\
  image_size_ euroc_model = {| width := 752; height := 480 |} /\
  distortion_coeff_ euroc_model !! 0%nat ≫= (.!! 4%nat) = Some Double.zero.
Proof. repeat split. Qed.

(** Scenario 2: the intrinsics are (721.5, 721.5, 609.6, 172.8) and the pose
    is the identity. *)
Example kitti_scenario :
  intrinsics_ kitti_model
  = [Double.ratio 7215 10; Double.ratio 7215 10; Double.ratio 6096 10; Double.ratio 1728 10] /\
  body_Pose_cam_ kitti_model = {| rotation := eye 3 3; translation := zeros 3 1 |}.
Proof. split; reflexivity. Qed.

(** Lines that are too short. After eight numbers the ninth extraction fails
    and leaves [value] as it was, so the last entry of the rotation repeats
    the eighth number; a word that is not a number stores 0; with no number
    at all [value] is read before it was ever written. *)
Example short_R_line :
  let two := Double.of_int 2 in
  let ss ts := {| toks := ts; failed := false |} in
  read_entries 9 0 3 (ss (Num <$> [two; two; two; two; two; two; two; Double.one])) None
    (zeros 3 3)
  = Ok [[two; two; two]; [two; two; two]; [two; Double.one; Double.one]] /\
  read_entries 3 0 1 (ss [Num two; Junk; Num two]) None (zeros 3 1)
  = Ok [[two]; [Double.zero]; [Double.zero]] /\
  read_entries 3 0 1 (ss []) None (zeros 3 1) = Undefined.
Proof. repeat split. Qed.

(** A second line of label D does not replace the coefficients of the first:
    the vector they are pushed to is never cleared. *)
Example second_D_line :
  let d1 := Text "D_0:" (Num <$> [Double.one; Double.one; Double.one; Double.one; Double.one]) in
  let d2 := Text "D_0:" (Num <$> [Double.zero; Double.zero; Double.zero; Double.zero; Double.zero]) in
  (st ← scan_lines "0" scan_start [d1; d2]; Ok (distortion_coeff_ (params st)))
  = Ok [[Double.one; Double.one; Double.one; Double.one; Double.one]].
Proof. reflexivity. Qed.

(** The sign of a zero is lost in the sum with the caller's zero translation:
    0 + (-0) is +0, which [==] does not tell from -0. *)
Example negative_zero_translation :
  mat_add (zeros 3 1) [[S754_zero true]; [Double.one]; [Double.zero]]
  = [[Double.zero]; [Double.one]; [Double.zero]] /\
  Double.eqb Double.zero (S754_zero true) = true.
Proof. split; reflexivity. Qed.

(** ** The structured parser *)

Lemma build_camera_matrix_Ok intrinsics cm :
  build_camera_matrix intrinsics = Ok cm ->
  exists fx fy cx cy,
    intrinsics !! 0%nat = Some fx /\ intrinsics !! 1%nat = Some fy /\
    intrinsics !! 2%nat = Some cx /\ intrinsics !! 3%nat = Some cy /\
    cm = camera_matrix_of fx fy cx cy.
Proof.
  unfold build_camera_matrix. intros H. ok_inv H.
  repeat match goal with E : at_ _ _ = Ok _ |- _ => apply at_Ok in E end.
  injection H as <-. eauto 10.
Qed.

Lemma build_calibration_Ok intrinsics coeff cal :
  build_calibration intrinsics coeff = Ok cal ->
  exists i0 i1 i2 i3 c0 c1 c2 c3,
    intrinsics !! 0%nat = Some i0 /\ intrinsics !! 1%nat = Some i1 /\
    intrinsics !! 2%nat = Some i2 /\ intrinsics !! 3%nat = Some i3 /\
    coeff !! 0%nat = Some c0 /\ coeff !! 1%nat = Some c1 /\
    coeff !! 2%nat = Some c2 /\ coeff !! 3%nat = Some c3 /\
    cal = {| fx := i0; fy := i1; skew := Double.zero; u0 := i2; v0 := i3;
             k1 := c0; k2 := c1; p1 := c2; p2 := c3 |}.
Proof.
  unfold build_calibration. intros H. ok_inv H.
  repeat match goal with E : at_ _ _ = Ok _ |- _ => apply at_Ok in E end.
  injection H as <-. eauto 20.
Qed.

(** What a call of [parseYAML] that returns has read and built. *)
Lemma parseYAML_Ok this fs b m :
  parseYAML this fs = Ok (b, m) ->
  exists dc w h pose cm cal,
    fs_marker fs = true /\
    fill_row 4 0 (fs_distortion_coefficients fs) (zeros 1 5) = Ok dc /\
    fs_resolution fs !! 0%nat = Some w /\ fs_resolution fs !! 1%nat = Some h /\
    Vec2pose (fs_T_BS_data fs) (fs_T_BS_rows fs) (fs_T_BS_cols fs) = Ok pose /\
    build_camera_matrix (fs_intrinsics fs) = Ok cm /\
    build_calibration (fs_intrinsics fs) (fs_distortion_coefficients fs) = Ok cal /\
    b = true /\
    m = {| intrinsics_ := fs_intrinsics fs;
           body_Pose_cam_ := pose;
           calibration_ := cal;
           frame_rate_ := Double.div Double.one (Double.of_int (fs_rate_hz fs));
           image_size_ := {| width := w; height := h |};
           camera_matrix_ := cm;
           distortion_coeff_ := dc;
           undistRect_map_x_ := undistRect_map_x_ this;
           undistRect_map_y_ := undistRect_map_y_ this;
           R_rectify_ := R_rectify_ this;
           P_ := P_ this |}.
Proof.
  unfold parseYAML, safeOpenCVFileStorage. intros H.
  destruct (fs_marker fs) eqn:Hm; [|discriminate H].
  ok_inv H. injection E as <-.
  repeat match goal with E : at_ _ _ = Ok _ |- _ => apply at_Ok in E end.
  injection H as <- <-. eauto 20.
Qed.

Lemma euroc_parses : parseYAML fresh euroc_yaml = Ok (true, euroc_model).
Proof. vm_compute. reflexivity. Qed.

(** C4. When the structured input supplies the four distortion coefficients
    k1, k2, p1, p2 and [parseYAML] returns, [distortion_coeff_] is one row of
    exactly five slots: the four coefficients in order, then exactly 0. *)
Theorem yaml_distortion_padding this fs k1 k2 p1 p2 b m :
  fs_distortion_coefficients fs = [k1; k2; p1; p2] ->
  parseYAML this fs = Ok (b, m) ->
  distortion_coeff_ m = [[k1; k2; p1; p2; Double.zero]].
Proof.
  intros Hd H.
  apply parseYAML_Ok in H as (dc & w & h & pose & cm & cal & _ & Hf & _ & _ & _ & _ & _ & _ & ->).
  rewrite Hd in Hf. cbn in Hf. injection Hf as <-. reflexivity.
Qed.

Lemma yaml_distortion_padding_witness :
  exists k1 k2 p1 p2,
    fs_distortion_coefficients euroc_yaml = [k1; k2; p1; p2] /\
    distortion_coeff_ euroc_model = [[k1; k2; p1; p2; Double.zero]].
Proof.
  do 4 eexists. split; [reflexivity|].
  exact (yaml_distortion_padding fresh euroc_yaml _ _ _ _ true euroc_model
           eq_refl euroc_parses).
Defined.

(** C2, the counterexample. With [rate_hz] equal to zero the parse of
    scenario 1 is not rejected: it returns true, and the frame rate of the
    model is +infinity. *)
Lemma zero_rate_not_rejected :
  exists m,
    parseYAML fresh (with_rate_hz 0 euroc_yaml) = Ok (true, m) /\
    frame_rate_ m = Double.infinity.
Proof. eexists. split; vm_compute; reflexivity. Qed.

(** C2, as amended. [parseYAML] has no guard on [rate_hz]: whenever an input
    parses, the same input with [rate_hz] set to zero parses too, the call
    returns true, and the model is the same but for its frame rate
    [1 / double(0)], which is +infinity. *)
Theorem zero_rate_gives_infinity this fs b m :
  parseYAML this fs = Ok (b, m) ->
  parseYAML this (with_rate_hz 0 fs)
  = Ok (true, set_frame_rate Double.infinity m).
Proof.
  intros H.
  apply parseYAML_Ok in H
    as (dc & w & h & pose & cm & cal & Hm & Hf & Hw & Hh & Hp & Hc & Hk & -> & ->).
  unfold parseYAML, safeOpenCVFileStorage. cbn [with_rate_hz fs_marker
    fs_intrinsics fs_distortion_coefficients fs_resolution fs_rate_hz
    fs_T_BS_rows fs_T_BS_cols fs_T_BS_data].
  rewrite Hm. cbn [mbind result_bind].
  rewrite Hf. cbn [mbind result_bind].
  rewrite (at_lookup _ _ _ Hw), (at_lookup _ _ _ Hh). cbn [mbind result_bind].
  rewrite Hp. cbn [mbind result_bind].
  rewrite Hc, Hk. cbn [mbind result_bind].
  reflexivity.
Qed.

Lemma zero_rate_gives_infinity_witness :
  parseYAML fresh (with_rate_hz 0 euroc_yaml)
  = Ok (true, set_frame_rate Double.infinity euroc_model).
Proof. exact (zero_rate_gives_infinity fresh euroc_yaml true euroc_model euroc_parses). Defined.

(** ** The legacy parser: the read loop *)

(** The cases of the chain of comparisons of [label] in [scan_line]. *)
Ltac label_cases cam_id label :=
  let HS := fresh "HS" in
  let HK := fresh "HK" in
  let HD := fresh "HD" in
  let HR := fresh "HR" in
  let HT := fresh "HT" in
  destruct (String.eqb label (label_of "S" cam_id)) eqn:HS;
  [ apply String.eqb_eq in HS
  | destruct (String.eqb label (label_of "K" cam_id)) eqn:HK;
    [ apply String.eqb_eq in HK
    | destruct (String.eqb label (label_of "D" cam_id)) eqn:HD;
      [ apply String.eqb_eq in HD
      | destruct (String.eqb label (label_of "R" cam_id)) eqn:HR;
        [ apply String.eqb_eq in HR
        | destruct (String.eqb label (label_of "T" cam_id)) eqn:HT;
          [ apply String.eqb_eq in HT | ] ] ] ] ].

Lemma label_eqb_refl lbl : String.eqb lbl lbl = true.
Proof. apply String.eqb_refl. Qed.

Lemma label_eqb_other p q cam_id :
  p <> q -> String.length p = 1%nat -> String.length q = 1%nat ->
  String.eqb (label_of p cam_id) (label_of q cam_id) = false.
Proof.
  intros Hne Hp Hq. apply String.eqb_neq. unfold label_of. intros E.
  destruct p as [|a [|]]; try discriminate Hp.
  destruct q as [|c [|]]; try discriminate Hq.
  simpl in E. injection E as ->. congruence.
Qed.

(** A turn of the loop that returns is a step, and conversely. *)
Lemma scan_line_step cam_id st l st' :
  scan_line cam_id st l = Ok st' <-> scan_step cam_id st l st'.
Proof.
  split.
  - destruct l as [|label rest]; cbn [scan_line].
    { intros [= <-]. constructor. }
    label_cases cam_id label; subst; intros H.
    + destruct (extract _ None) as [ss1 w] eqn:E1.
      destruct (extract ss1 None) as [ss2 h] eqn:E2.
      ok_inv H. injection H as <-.
      destruct w as [wd|]; [|discriminate]. destruct h as [hd|]; [|discriminate].
      cbn in E, E0. injection E as <-. injection E0 as <-.
      unfold int_of_double in *.
      destruct (Double.to_int wd) eqn:Hw; [|discriminate].
      destruct (Double.to_int hd) eqn:Hh; [|discriminate].
      injection E3 as <-. injection E4 as <-.
      eapply step_S; eassumption.
    + ok_inv H. injection H as <-.
      apply build_camera_matrix_Ok in E3 as (? & ? & ? & ? & [= <-] & [= <-] & [= <-] & [= <-] & ->).
      repeat match goal with E : at_ _ _ = Ok _ |- _ => apply at_Ok in E end.
      apply step_K; assumption.
    + ok_inv H. injection H as <-. apply step_D; assumption.
    + ok_inv H. injection H as <-. apply step_R; assumption.
    + ok_inv H. injection H as <-. apply step_T; assumption.
    + injection H as <-. apply step_unrecognized.
      cbn [unrecognized has_label]. rewrite HS, HK, HD, HR, HT. reflexivity.
  - intros H. destruct H; cbn [scan_line]; try reflexivity.
    + cbn [unrecognized has_label] in H.
      apply negb_true_iff in H. repeat (apply orb_false_iff in H as [H ?]).
      repeat match goal with E : String.eqb _ _ = false |- _ => rewrite E; clear E end.
      reflexivity.
    + rewrite label_eqb_refl. rewrite H, H0. cbn [read_local mbind result_bind].
      unfold int_of_double. rewrite H1, H2. reflexivity.
    + rewrite (label_eqb_other "K" "S"), label_eqb_refl by (congruence || reflexivity).
      rewrite (at_lookup _ _ _ H), (at_lookup _ _ _ H0), (at_lookup _ _ _ H1),
        (at_lookup _ _ _ H2).
      reflexivity.
    + rewrite (label_eqb_other "D" "S"), (label_eqb_other "D" "K"), label_eqb_refl
        by (congruence || reflexivity).
      rewrite H. reflexivity.
    + rewrite (label_eqb_other "R" "S"), (label_eqb_other "R" "K"),
        (label_eqb_other "R" "D"), label_eqb_refl by (congruence || reflexivity).
      rewrite H. reflexivity.
    + rewrite (label_eqb_other "T" "S"), (label_eqb_other "T" "K"),
        (label_eqb_other "T" "D"), (label_eqb_other "T" "R"), label_eqb_refl
        by (congruence || reflexivity).
      rewrite H. reflexivity.
Qed.

(** A property of the state that every step keeps holds after the loop. *)
Lemma scan_lines_invariant cam_id (P : scan -> Prop) :
  (forall st l st', P st -> scan_step cam_id st l st' -> P st') ->
  forall ls st st', P st -> scan_lines cam_id st ls = Ok st' -> P st'.
Proof.
  intros Hstep ls. induction ls as [|l ls IH]; intros st st' HP H; cbn [scan_lines] in H.
  - injection H as <-. exact HP.
  - ok_inv H. apply scan_line_step in E. eauto.
Qed.

(** What a call of [parseKITTICalib] that returns has read and built. *)
Lemma parseKITTICalib_Ok this calib_file R_ref T_ref cam_id b m :
  parseKITTICalib this calib_file R_ref T_ref cam_id = Ok (b, m) ->
  exists ls st cal,
    calib_file = Some ls /\
    scan_lines cam_id
      {| params := set_frame_rate (Double.div Double.one (Double.of_int 10)) this;
         cvR := zeros 3 3; cvT := zeros 3 1; distortion_coeff5_ := [] |} ls = Ok st /\
    cols R_ref = rows (cvR st) /\
    rows T_ref = rows (cvT st) /\ cols T_ref = cols (cvT st) /\
    build_calibration (intrinsics_ (params st)) (distortion_coeff5_ st) = Ok cal /\
    b = true /\
    m = set_pose_calibration
          (Cvmats2pose (mat_mul R_ref (cvR st)) (mat_add T_ref (cvT st))) cal (params st).
Proof.
  unfold parseKITTICalib. destruct calib_file as [ls|]; [|discriminate].
  intros H. ok_inv H. injection H as <- <-.
  unfold cv_mul in E0. destruct (Nat.eqb (cols R_ref) (rows (cvR a))) eqn:HR; [|discriminate].
  injection E0 as <-.
  unfold cv_add in E1.
  destruct (Nat.eqb (rows T_ref) (rows (cvT a)) && Nat.eqb (cols T_ref) (cols (cvT a))) eqn:HT;
    [|discriminate].
  injection E1 as <-.
  apply andb_true_iff in HT as [HT1 HT2].
  apply Nat.eqb_eq in HR, HT1, HT2.
  eauto 12.
Qed.

Lemma kitti_parses :
  parseKITTICalib fresh (Some kitti_txt) (eye 3 3) (zeros 3 1) "0" = Ok (true, kitti_model).
Proof. vm_compute. reflexivity. Qed.

(** C10. Whenever [parseYAML] or [parseKITTICalib] returns, it returns true. *)
Theorem parse_returns_true :
  (forall this fs b m, parseYAML this fs = Ok (b, m) -> b = true) /\
  (forall this calib_file R_ref T_ref cam_id b m,
      parseKITTICalib this calib_file R_ref T_ref cam_id = Ok (b, m) -> b = true).
Proof.
  split.
  - intros this fs b m H.
    apply parseYAML_Ok in H as (? & ? & ? & ? & ? & ? & H). tauto.
  - intros this calib_file R_ref T_ref cam_id b m H.
    apply parseKITTICalib_Ok in H as (? & ? & ? & H). tauto.
Qed.

Lemma parse_returns_true_witness :
  match parseYAML fresh euroc_yaml with
  | Ok (b, _) => b = true
  | _ => False
  end /\
  match parseKITTICalib fresh (Some kitti_txt) (eye 3 3) (zeros 3 1) "0" with
  | Ok (b, _) => b = true
  | _ => False
  end.
Proof.
  split.
  - rewrite euroc_parses.
    exact (proj1 parse_returns_true fresh euroc_yaml true euroc_model euroc_parses).
  - rewrite kitti_parses.
    exact (proj2 parse_returns_true fresh (Some kitti_txt) (eye 3 3) (zeros 3 1)
             "0"%string true kitti_model kitti_parses).
Defined.

(** The camera matrix stays the one of the intrinsics along the loop, once
    there are four intrinsics. *)
Lemma scan_step_camera_matrix cam_id st l st' :
  ((length (intrinsics_ (params st)) < 4)%nat \/ camera_matrix_derived (params st)) ->
  scan_step cam_id st l st' ->
  (length (intrinsics_ (params st')) < 4)%nat \/ camera_matrix_derived (params st').
Proof.
  intros HP H. destruct H; try exact HP.
  right. do 4 eexists. cbn. repeat split; reflexivity.
Qed.

(** C1. The camera matrix of a parsed model is the identity overwritten with
    its intrinsics: fx and fy on the diagonal, cx and cy in the last column.
    This holds after [parseYAML], and after [parseKITTICalib] called on a
    model that has fewer than four intrinsics, as one constructed empty, or
    whose camera matrix is already the one of its intrinsics, as one parsed
    before. *)
Theorem camera_matrix_from_intrinsics :
  (forall this fs b m,
      parseYAML this fs = Ok (b, m) -> camera_matrix_derived m) /\
  (forall this calib_file R_ref T_ref cam_id b m,
      (length (intrinsics_ this) < 4)%nat \/ camera_matrix_derived this ->
      parseKITTICalib this calib_file R_ref T_ref cam_id = Ok (b, m) ->
      camera_matrix_derived m).
Proof.
  split.
  - intros this fs b m H.
    apply parseYAML_Ok in H
      as (dc & w & h & pose & cm & cal & _ & _ & _ & _ & _ & Hc & _ & _ & ->).
    apply build_camera_matrix_Ok in Hc as (fx & fy & cx & cy & ? & ? & ? & ? & ->).
    exists fx, fy, cx, cy. cbn. auto.
  - intros this calib_file R_ref T_ref cam_id b m Hlen H.
    apply parseKITTICalib_Ok in H as (ls & st & cal & _ & Hs & _ & _ & _ & Hk & _ & ->).
    eapply (scan_lines_invariant cam_id _ (scan_step_camera_matrix cam_id)) in Hs;
      [|exact Hlen].
    apply build_calibration_Ok in Hk
      as (i0 & i1 & i2 & i3 & ? & ? & ? & ? & _ & _ & _ & H3 & _).
    destruct Hs as [Hs|Hs].
    + apply lookup_lt_Some in H3. lia.
    + exact Hs.
Qed.

Lemma camera_matrix_from_intrinsics_witness :
  camera_matrix_derived euroc_model /\ camera_matrix_derived kitti_model.
Proof.
  split.
  - exact (proj1 camera_matrix_from_intrinsics fresh euroc_yaml true euroc_model
             euroc_parses).
  - refine (proj2 camera_matrix_from_intrinsics fresh (Some kitti_txt) (eye 3 3)
              (zeros 3 1) "0"%string true kitti_model _ kitti_parses).
    left. cbn. lia.
Defined.

(** C7. A line that is not blank and whose label is none of the five labels
    of the camera leaves the whole state of the read loop as it was, and a
    file parses as the same file without such lines does: with the same
    outcome and, when the call returns, the same model. *)
Theorem unrecognized_lines_ignored cam_id :
  (forall st l, unrecognized cam_id l = true -> scan_line cam_id st l = Ok st) /\
  (forall this ls R_ref T_ref,
      parseKITTICalib this (Some ls) R_ref T_ref cam_id
      = parseKITTICalib this
          (Some (List.filter (fun l => negb (unrecognized cam_id l)) ls))
          R_ref T_ref cam_id).
Proof.
  assert (Hline : forall st l,
             unrecognized cam_id l = true -> scan_line cam_id st l = Ok st).
  { intros st [|label rest] H; [discriminate|].
    apply scan_line_step. apply step_unrecognized. exact H. }
  split; [exact Hline|].
  intros this ls R_ref T_ref. unfold parseKITTICalib. f_equal.
  generalize ({| params := set_frame_rate (Double.div Double.one (Double.of_int 10)) this;
                 cvR := zeros 3 3; cvT := zeros 3 1; distortion_coeff5_ := [] |}).
  induction ls as [|l ls IH]; intros st; [reflexivity|].
  cbn [List.filter scan_lines].
  destruct (unrecognized cam_id l) eqn:Hu; cbn [negb scan_lines].
  - rewrite (Hline st l Hu). cbn [mbind result_bind]. apply IH.
  - destruct (scan_line cam_id st l); cbn [mbind result_bind]; [apply IH | reflexivity ..].
Qed.

Lemma unrecognized_lines_ignored_witness :
  scan_line "0" scan_start (Text "S_1:" [Num (Double.of_int 640); Num (Double.of_int 480)])
  = Ok scan_start /\
  parseKITTICalib fresh (Some kitti_two_cameras_txt) (eye 3 3) (zeros 3 1) "0"
  = Ok (true, kitti_model).
Proof.
  split.
  - apply (proj1 (unrecognized_lines_ignored "0")). reflexivity.
  - rewrite (proj2 (unrecognized_lines_ignored "0") fresh kitti_two_cameras_txt
               (eye 3 3) (zeros 3 1)).
    exact kitti_parses.
Defined.

(** ** The legacy parser: the distortion coefficients *)

Lemma push_back_all_app ts v : push_back_all ts v = v ++ push_back_all ts [].
Proof.
  revert v. induction ts as [|[d|] ts IH]; intros v; cbn [push_back_all].
  - rewrite app_nil_r. reflexivity.
  - rewrite (IH (v ++ [d])), (IH ([] ++ [d])). rewrite <- app_assoc. reflexivity.
  - rewrite app_nil_r. reflexivity.
Qed.

Lemma fill_row_5 src dc :
  fill_row 5 0 src (zeros 1 5) = Ok dc ->
  exists c0 c1 c2 c3 c4 more,
    src = c0 :: c1 :: c2 :: c3 :: c4 :: more /\ dc = [[c0; c1; c2; c3; c4]].
Proof.
  cbn [fill_row]. intros H. ok_inv H.
  repeat match goal with E : at_ _ _ = Ok _ |- _ => apply at_Ok in E end.
  injection H as <-.
  destruct src as [|c0 [|c1 [|c2 [|c3 [|c4 more]]]]]; try discriminate.
  cbn in *. repeat match goal with E : Some _ = Some _ |- _ => injection E as <- end.
  eauto 10.
Qed.

(** The vector [distortion_coeff5_] grows by the numbers of each line of
    label D. *)
Lemma scan_lines_distortion_values cam_id ls st st' :
  scan_lines cam_id st ls = Ok st' ->
  distortion_coeff5_ st' = distortion_coeff5_ st ++ distortion_values cam_id ls.
Proof.
  revert st. induction ls as [|l ls IH]; intros st H; cbn [scan_lines] in H.
  - injection H as <-. cbn. rewrite app_nil_r. reflexivity.
  - ok_inv H. apply IH in H. rewrite H. clear H IH.
    apply scan_line_step in E. destruct E; cbn [distortion_values distortion_coeff5_].
    + reflexivity.
    + cbn [unrecognized has_label] in H.
      apply negb_true_iff in H. repeat (apply orb_false_iff in H as [H ?]).
      match goal with E : String.eqb _ (label_of "D" _) = false |- _ => rewrite E end.
      reflexivity.
    + rewrite (label_eqb_other "S" "D") by (congruence || reflexivity). reflexivity.
    + rewrite (label_eqb_other "K" "D") by (congruence || reflexivity). reflexivity.
    + rewrite label_eqb_refl, (push_back_all_app rest), app_assoc. reflexivity.
    + rewrite (label_eqb_other "R" "D") by (congruence || reflexivity). reflexivity.
    + rewrite (label_eqb_other "T" "D") by (congruence || reflexivity). reflexivity.
Qed.

Lemma scan_step_distortion_stored cam_id st l st' :
  distortion_stored st -> scan_step cam_id st l st' -> distortion_stored st'.
Proof.
  intros HP H. destruct H; try exact HP.
  right. cbn [distortion_coeff5_ params set_distortion_coeff distortion_coeff_].
  apply fill_row_5 in H as (c0 & c1 & c2 & c3 & c4 & more & -> & ->). eauto 10.
Qed.

(** C8. When [parseKITTICalib] returns, the calibration is built from the
    four intrinsics of the model, a skew of 0 and the first four of the
    numbers of the lines of label D; the fifth number is stored in the five
    slots of [distortion_coeff_] and is no argument of the calibration. *)
Theorem kitti_calibration_drops_k3 this calib_file R_ref T_ref cam_id b m :
  parseKITTICalib this calib_file R_ref T_ref cam_id = Ok (b, m) ->
  exists ls focal_x focal_y center_x center_y radial1 radial2 tangential1 tangential2
         radial3 more,
    calib_file = Some ls /\
    intrinsics_ m !! 0%nat = Some focal_x /\ intrinsics_ m !! 1%nat = Some focal_y /\
    intrinsics_ m !! 2%nat = Some center_x /\ intrinsics_ m !! 3%nat = Some center_y /\
    distortion_values cam_id ls
    = radial1 :: radial2 :: tangential1 :: tangential2 :: radial3 :: more /\
    distortion_coeff_ m = [[radial1; radial2; tangential1; tangential2; radial3]] /\
    calibration_ m
    = {| fx := focal_x; fy := focal_y; skew := Double.zero;
         u0 := center_x; v0 := center_y;
         k1 := radial1; k2 := radial2; p1 := tangential1; p2 := tangential2 |}.
Proof.
  intros H.
  apply parseKITTICalib_Ok in H as (ls & st & cal & -> & Hs & _ & _ & _ & Hk & _ & ->).
  pose proof (scan_lines_distortion_values _ _ _ _ Hs) as Hv. cbn in Hv.
  eapply (scan_lines_invariant cam_id _ (scan_step_distortion_stored cam_id)) in Hs;
    [|left; reflexivity].
  apply build_calibration_Ok in Hk
    as (i0 & i1 & i2 & i3 & c0 & c1 & c2 & c3 & ? & ? & ? & ? & H0 & H1 & H2 & H3 & ->).
  destruct Hs as [Hs|(d0 & d1 & d2 & d3 & d4 & more & Hs & Hd)].
  { rewrite Hs in H0. discriminate. }
  rewrite Hs in H0, H1, H2, H3. cbn in H0, H1, H2, H3.
  injection H0 as <-. injection H1 as <-. injection H2 as <-. injection H3 as <-.
  exists ls. do 10 eexists.
  cbn. rewrite <- Hv. repeat split; eassumption || reflexivity.
Qed.

Lemma kitti_calibration_drops_k3_witness :
  exists radial3,
    distortion_coeff_ kitti_model !! 0%nat ≫= (.!! 4%nat) = Some radial3 /\
    k1 (calibration_ kitti_model) = Double.ratio (-37) 100 /\
    p2 (calibration_ kitti_model) = Double.zero.
Proof.
  destruct (kitti_calibration_drops_k3 fresh (Some kitti_txt) (eye 3 3) (zeros 3 1)
              "0"%string true kitti_model kitti_parses)
    as (ls & focal_x & focal_y & center_x & center_y & radial1 & radial2
        & tangential1 & tangential2 & radial3 & more
        & Hls & _ & _ & _ & _ & Hv & Hd & Hc).
  injection Hls as <-.
  exists radial3. rewrite Hd, Hc. cbn [k1 p2].
  vm_compute in Hv.
  injection Hv as <- <- <- <- <- <-.
  split; [reflexivity|]. split; vm_compute; reflexivity.
Defined.

(** ** The legacy parser: rotation and translation *)

Lemma read_entries_values n i w ss value m :
  read_entries n i w ss value m
  = vs ← read_values n ss value; Ok (write_all i w vs m).
Proof.
  revert i ss value m. induction n as [|n IH]; intros i ss value m; [reflexivity|].
  cbn [read_entries read_values].
  destruct (extract ss value) as [ss' value'].
  destruct (read_local value') as [v| |]; cbn [mbind result_bind]; [|reflexivity ..].
  rewrite IH. destruct (read_values n ss' value'); reflexivity.
Qed.

Lemma read_values_length n ss value vs :
  read_values n ss value = Ok vs -> length vs = n.
Proof.
  revert ss value vs. induction n as [|n IH]; intros ss value vs H; cbn [read_values] in H.
  - injection H as <-. reflexivity.
  - destruct (extract ss value) as [ss' value']. ok_inv H. injection H as <-.
    cbn. f_equal. eauto.
Qed.

Lemma shaped_3_3 m :
  shaped 3 3 m ->
  exists a b c d e f g h i, m = [[a; b; c]; [d; e; f]; [g; h; i]].
Proof.
  intros [Hl Hr].
  destruct m as [|r0 [|r1 [|r2 [|]]]]; try discriminate Hl.
  apply Forall_cons in Hr as [H0 Hr]. apply Forall_cons in Hr as [H1 Hr].
  apply Forall_cons in Hr as [H2 _].
  destruct r0 as [|? [|? [|? [|]]]]; try discriminate H0.
  destruct r1 as [|? [|? [|? [|]]]]; try discriminate H1.
  destruct r2 as [|? [|? [|? [|]]]]; try discriminate H2.
  eauto 12.
Qed.

Lemma shaped_3_1 m :
  shaped 3 1 m -> exists a b c, m = [[a]; [b]; [c]].
Proof.
  intros [Hl Hr].
  destruct m as [|r0 [|r1 [|r2 [|]]]]; try discriminate Hl.
  apply Forall_cons in Hr as [H0 Hr]. apply Forall_cons in Hr as [H1 Hr].
  apply Forall_cons in Hr as [H2 _].
  destruct r0 as [|? [|]]; try discriminate H0.
  destruct r1 as [|? [|]]; try discriminate H1.
  destruct r2 as [|? [|]]; try discriminate H2.
  eauto.
Qed.

(** Nine extractions overwrite a 3x3 matrix with the values read, row by
    row. *)
Lemma read_entries_3_3 ts m R :
  shaped 3 3 m ->
  read_entries 9 0 3 {| toks := ts; failed := false |} None m = Ok R ->
  parsed_matrix 3 3 (Some ts) = Ok R /\ shaped 3 3 R.
Proof.
  intros Hm H. rewrite read_entries_values in H. ok_inv H. injection H as <-.
  unfold parsed_matrix. change (3 * 3)%nat with 9%nat. rewrite E. cbn [mbind result_bind].
  apply read_values_length in E.
  destruct a as [|v0 [|v1 [|v2 [|v3 [|v4 [|v5 [|v6 [|v7 [|v8 [|]]]]]]]]]];
    try discriminate E.
  apply shaped_3_3 in Hm as (? & ? & ? & ? & ? & ? & ? & ? & ? & ->).
  split; [reflexivity|].
  split; [reflexivity|]. repeat constructor.
Qed.

Lemma read_entries_3_1 ts m T :
  shaped 3 1 m ->
  read_entries 3 0 1 {| toks := ts; failed := false |} None m = Ok T ->
  parsed_matrix 3 1 (Some ts) = Ok T /\ shaped 3 1 T.
Proof.
  intros Hm H. rewrite read_entries_values in H. ok_inv H. injection H as <-.
  unfold parsed_matrix. change (3 * 1)%nat with 3%nat. rewrite E. cbn [mbind result_bind].
  apply read_values_length in E.
  destruct a as [|v0 [|v1 [|v2 [|]]]]; try discriminate E.
  apply shaped_3_1 in Hm as (? & ? & ? & ->).
  split; [reflexivity|].
  split; [reflexivity|]. repeat constructor.
Qed.

Lemma unrecognized_line_record cam_id p l :
  In p ["S"; "K"; "D"; "R"; "T"]%string ->
  unrecognized cam_id l = true -> line_record (label_of p cam_id) l = None.
Proof.
  intros Hp H. destruct l as [|label rest]; [reflexivity|].
  cbn [unrecognized has_label] in H.
  apply negb_true_iff in H. repeat (apply orb_false_iff in H as [H ?]).
  cbn [line_record].
  cbn in Hp. destruct Hp as [<-|[<-|[<-|[<-|[<-|[]]]]]];
    match goal with E : String.eqb _ _ = false |- _ => rewrite E; reflexivity end.
Qed.

(** What a step does to the rotation read so far. *)
Lemma scan_step_cvR cam_id st l st' :
  scan_step cam_id st l st' ->
  shaped 3 3 (cvR st) ->
  shaped 3 3 (cvR st') /\
  match line_record (label_of "R" cam_id) l with
  | None => cvR st' = cvR st
  | Some ts => parsed_matrix 3 3 (Some ts) = Ok (cvR st')
  end.
Proof.
  intros H Hm.
  destruct H; cbn [cvR];
    try (rewrite (unrecognized_line_record cam_id "R" (Text label rest)) by (cbn; auto 10); auto);
    cbn [line_record].
  - auto.
  - rewrite (label_eqb_other "S" "R") by (congruence || reflexivity). auto.
  - rewrite (label_eqb_other "K" "R") by (congruence || reflexivity). auto.
  - rewrite (label_eqb_other "D" "R") by (congruence || reflexivity). auto.
  - rewrite label_eqb_refl. apply (read_entries_3_3 _ _ _ Hm) in H. tauto.
  - rewrite (label_eqb_other "T" "R") by (congruence || reflexivity). auto.
Qed.

(** What a step does to the translation read so far. *)
Lemma scan_step_cvT cam_id st l st' :
  scan_step cam_id st l st' ->
  shaped 3 1 (cvT st) ->
  shaped 3 1 (cvT st') /\
  match line_record (label_of "T" cam_id) l with
  | None => cvT st' = cvT st
  | Some ts => parsed_matrix 3 1 (Some ts) = Ok (cvT st')
  end.
Proof.
  intros H Hm.
  destruct H; cbn [cvT];
    try (rewrite (unrecognized_line_record cam_id "T" (Text label rest)) by (cbn; auto 10); auto);
    cbn [line_record].
  - auto.
  - rewrite (label_eqb_other "S" "T") by (congruence || reflexivity). auto.
  - rewrite (label_eqb_other "K" "T") by (congruence || reflexivity). auto.
  - rewrite (label_eqb_other "D" "T") by (congruence || reflexivity). auto.
  - rewrite (label_eqb_other "R" "T") by (congruence || reflexivity). auto.
  - rewrite label_eqb_refl. apply (read_entries_3_1 _ _ _ Hm) in H. tauto.
Qed.

(** After the loop, the rotation is the one of the last line of label R. *)
Lemma scan_lines_cvR cam_id ls st st' :
  scan_lines cam_id st ls = Ok st' ->
  shaped 3 3 (cvR st) ->
  shaped 3 3 (cvR st') /\
  match record (label_of "R" cam_id) ls with
  | None => cvR st' = cvR st
  | Some ts => parsed_matrix 3 3 (Some ts) = Ok (cvR st')
  end.
Proof.
  revert st. induction ls as [|l ls IH]; intros st H Hm; cbn [scan_lines record] in *.
  - injection H as <-. auto.
  - ok_inv H. apply scan_line_step in E.
    destruct (scan_step_cvR _ _ _ _ E Hm) as [Hm' Hl].
    destruct (IH _ H Hm') as [Hm'' Hr]. split; [exact Hm''|].
    destruct (record (label_of "R" cam_id) ls); [exact Hr|].
    destruct (line_record (label_of "R" cam_id) l); congruence.
Qed.

(** After the loop, the translation is the one of the last line of label T. *)
Lemma scan_lines_cvT cam_id ls st st' :
  scan_lines cam_id st ls = Ok st' ->
  shaped 3 1 (cvT st) ->
  shaped 3 1 (cvT st') /\
  match record (label_of "T" cam_id) ls with
  | None => cvT st' = cvT st
  | Some ts => parsed_matrix 3 1 (Some ts) = Ok (cvT st')
  end.
Proof.
  revert st. induction ls as [|l ls IH]; intros st H Hm; cbn [scan_lines record] in *.
  - injection H as <-. auto.
  - ok_inv H. apply scan_line_step in E.
    destruct (scan_step_cvT _ _ _ _ E Hm) as [Hm' Hl].
    destruct (IH _ H Hm') as [Hm'' Hr]. split; [exact Hm''|].
    destruct (record (label_of "T" cam_id) ls); [exact Hr|].
    destruct (line_record (label_of "T" cam_id) l); congruence.
Qed.

Lemma shaped_zeros_3_3 : shaped 3 3 (zeros 3 3).
Proof. split; [reflexivity|]. repeat constructor. Qed.

Lemma shaped_zeros_3_1 : shaped 3 1 (zeros 3 1).
Proof. split; [reflexivity|]. repeat constructor. Qed.

(** The entries of the product of the identity and a matrix of finite
    entries: one term is the entry, the others are zeros. *)
Lemma dot_unit_0 a d g :
  regular a = true -> finite d = true -> finite g = true ->
  dot [Double.one; Double.zero; Double.zero] [a; d; g] = a.
Proof.
  intros Ha Hd Hg. cbn [dot zip_with foldl].
  rewrite (DoubleFacts.mul_one_finite' a (DoubleFacts.regular_finite a Ha)).
  rewrite (DoubleFacts.add_zero_r a _ Ha (DoubleFacts.mul_zero_finite d Hd)).
  apply (DoubleFacts.add_zero_r a _ Ha (DoubleFacts.mul_zero_finite g Hg)).
Qed.

Lemma dot_unit_1 a d g :
  finite a = true -> regular d = true -> finite g = true ->
  dot [Double.zero; Double.one; Double.zero] [a; d; g] = d.
Proof.
  intros Ha Hd Hg. cbn [dot zip_with foldl].
  rewrite (DoubleFacts.mul_one_finite' d (DoubleFacts.regular_finite d Hd)).
  rewrite (DoubleFacts.add_zero_l d _ Hd (DoubleFacts.mul_zero_finite a Ha)).
  apply (DoubleFacts.add_zero_r d _ Hd (DoubleFacts.mul_zero_finite g Hg)).
Qed.

Lemma dot_unit_2 a d g :
  finite a = true -> finite d = true -> regular g = true ->
  dot [Double.zero; Double.zero; Double.one] [a; d; g] = g.
Proof.
  intros Ha Hd Hg. cbn [dot zip_with foldl].
  rewrite (DoubleFacts.mul_one_finite' g (DoubleFacts.regular_finite g Hg)).
  apply (DoubleFacts.add_zero_l g _ Hg).
  apply DoubleFacts.add_zeros; apply DoubleFacts.mul_zero_finite; assumption.
Qed.

(** When the entry is -0 the sum is a zero, which [==] does not tell from it. *)
Lemma dot_unit_0_eqb a d g :
  finite a = true -> finite d = true -> finite g = true ->
  Double.eqb (dot [Double.one; Double.zero; Double.zero] [a; d; g]) a = true.
Proof.
  intros Ha Hd Hg. destruct (DoubleFacts.finite_cases a Ha) as [Hr| ->].
  - rewrite dot_unit_0 by assumption. apply DoubleFacts.eqb_refl, Ha.
  - apply DoubleFacts.eqb_zeros; [|reflexivity]. cbn [dot zip_with foldl].
    repeat apply DoubleFacts.add_zeros;
      auto using DoubleFacts.mul_zero_finite.
Qed.

Lemma dot_unit_1_eqb a d g :
  finite a = true -> finite d = true -> finite g = true ->
  Double.eqb (dot [Double.zero; Double.one; Double.zero] [a; d; g]) d = true.
Proof.
  intros Ha Hd Hg. destruct (DoubleFacts.finite_cases d Hd) as [Hr| ->].
  - rewrite dot_unit_1 by assumption. apply DoubleFacts.eqb_refl, Hd.
  - apply DoubleFacts.eqb_zeros; [|reflexivity]. cbn [dot zip_with foldl].
    repeat apply DoubleFacts.add_zeros;
      auto using DoubleFacts.mul_zero_finite.
Qed.

Lemma dot_unit_2_eqb a d g :
  finite a = true -> finite d = true -> finite g = true ->
  Double.eqb (dot [Double.zero; Double.zero; Double.one] [a; d; g]) g = true.
Proof.
  intros Ha Hd Hg. destruct (DoubleFacts.finite_cases g Hg) as [Hr| ->].
  - rewrite dot_unit_2 by assumption. apply DoubleFacts.eqb_refl, Hg.
  - apply DoubleFacts.eqb_zeros; [|reflexivity]. cbn [dot zip_with foldl].
    repeat apply DoubleFacts.add_zeros;
      auto using DoubleFacts.mul_zero_finite.
Qed.

Lemma add_zero_eqb t : finite t = true -> Double.eqb (Double.add Double.zero t) t = true.
Proof.
  intros Ht. destruct (DoubleFacts.finite_cases t Ht) as [Hr| ->]; [|reflexivity].
  rewrite DoubleFacts.add_zero_l by (assumption || reflexivity).
  apply DoubleFacts.eqb_refl, Ht.
Qed.

Ltac split_entries :=
  repeat match goal with
  | H : all_regular _ |- _ => unfold all_regular in H
  | H : all_finite _ |- _ => unfold all_finite in H
  | H : Forall _ (_ :: _) |- _ => apply Forall_cons in H as [? H]
  end.

Lemma all_regular_finite m : all_regular m -> all_finite m.
Proof.
  unfold all_regular, all_finite. intros H.
  eapply Forall_impl; [exact H|]. intros row Hrow.
  eapply Forall_impl; [exact Hrow|]. apply DoubleFacts.regular_finite.
Qed.

Lemma mat_mul_eye_unfold a b c d e f g h i :
  mat_mul (eye 3 3) [[a; b; c]; [d; e; f]; [g; h; i]]
  = [ [ dot [Double.one; Double.zero; Double.zero] [a; d; g];
        dot [Double.one; Double.zero; Double.zero] [b; e; h];
        dot [Double.one; Double.zero; Double.zero] [c; f; i] ];
      [ dot [Double.zero; Double.one; Double.zero] [a; d; g];
        dot [Double.zero; Double.one; Double.zero] [b; e; h];
        dot [Double.zero; Double.one; Double.zero] [c; f; i] ];
      [ dot [Double.zero; Double.zero; Double.one] [a; d; g];
        dot [Double.zero; Double.zero; Double.one] [b; e; h];
        dot [Double.zero; Double.zero; Double.one] [c; f; i] ] ].
Proof. reflexivity. Qed.

Lemma mat_mul_eye_3_3 R :
  shaped 3 3 R -> all_regular R -> mat_mul (eye 3 3) R = R.
Proof.
  intros (a & b & c & d & e & f & g & h & i & ->)%shaped_3_3 Hr.
  pose proof (all_regular_finite _ Hr) as Hf. split_entries.
  rewrite mat_mul_eye_unfold.
  rewrite !dot_unit_0, !dot_unit_1, !dot_unit_2 by assumption. reflexivity.
Qed.

Lemma mat_mul_eye_3_3_eqb R :
  shaped 3 3 R -> all_finite R -> mat_eqb (mat_mul (eye 3 3) R) R = true.
Proof.
  intros (a & b & c & d & e & f & g & h & i & ->)%shaped_3_3 Hf. split_entries.
  rewrite mat_mul_eye_unfold. unfold mat_eqb. cbn [all2].
  rewrite !dot_unit_0_eqb, !dot_unit_1_eqb, !dot_unit_2_eqb by assumption. reflexivity.
Qed.

Lemma mat_add_zeros_3_1 T :
  shaped 3 1 T -> all_regular T -> mat_add (zeros 3 1) T = T.
Proof.
  intros (a & b & c & ->)%shaped_3_1 Hr. split_entries.
  cbn [mat_add zeros replicate zip_with].
  rewrite !DoubleFacts.add_zero_l by (assumption || reflexivity). reflexivity.
Qed.

Lemma mat_add_zeros_3_1_eqb T :
  shaped 3 1 T -> all_finite T -> mat_eqb (mat_add (zeros 3 1) T) T = true.
Proof.
  intros (a & b & c & ->)%shaped_3_1 Hf. split_entries.
  cbn [mat_add zeros replicate zip_with]. unfold mat_eqb. cbn [all2].
  rewrite !add_zero_eqb by assumption. reflexivity.
Qed.

Local Notation "x [*] y" := (Double.mul x y) (at level 40, left associativity).
Local Notation "x [+] y" := (Double.add x y) (at level 50, left associativity).

Lemma kitti_turned_parses :
  parseKITTICalib fresh (Some kitti_turned_txt) quarter_turn offset_123 "0"
  = Ok (true, kitti_turned_model).
Proof. vm_compute. reflexivity. Qed.

(** C3. When [parseKITTICalib] returns, the file has given a rotation
    [R_parsed] and a translation [T_parsed] (those of the last lines of
    label R and T, zero without such a line), and with the caller's rotation
    (a) and translation (u) the pose has
    - as rotation the product a x R_parsed: its entry (i, j) is
      a_i0 * r_0j + a_i1 * r_1j + a_i2 * r_2j, summed from left to right;
    - as translation the sum u + T_parsed, entry by entry.
    When the caller's rotation is the identity and the entries parsed are
    finite, as numbers read from text are, the rotation of the pose equals
    ([==]) the rotation parsed in every entry, and is the very same matrix
    when no entry is -0; likewise for a zero translation of the caller. *)
Theorem kitti_pose_composition this ls R_ref T_ref cam_id b m :
  parseKITTICalib this (Some ls) R_ref T_ref cam_id = Ok (b, m) ->
  exists r00 r01 r02 r10 r11 r12 r20 r21 r22 t0 t1 t2,
    let R_parsed := [[r00; r01; r02]; [r10; r11; r12]; [r20; r21; r22]] in
    let T_parsed := [[t0]; [t1]; [t2]] in
    parsed_matrix 3 3 (record (label_of "R" cam_id) ls) = Ok R_parsed /\
    parsed_matrix 3 1 (record (label_of "T" cam_id) ls) = Ok T_parsed /\
    (forall a00 a01 a02 a10 a11 a12 a20 a21 a22,
        R_ref = [[a00; a01; a02]; [a10; a11; a12]; [a20; a21; a22]] ->
        rotation (body_Pose_cam_ m)
        = [ [ a00 [*] r00 [+] a01 [*] r10 [+] a02 [*] r20;
              a00 [*] r01 [+] a01 [*] r11 [+] a02 [*] r21;
              a00 [*] r02 [+] a01 [*] r12 [+] a02 [*] r22 ];
            [ a10 [*] r00 [+] a11 [*] r10 [+] a12 [*] r20;
              a10 [*] r01 [+] a11 [*] r11 [+] a12 [*] r21;
              a10 [*] r02 [+] a11 [*] r12 [+] a12 [*] r22 ];
            [ a20 [*] r00 [+] a21 [*] r10 [+] a22 [*] r20;
              a20 [*] r01 [+] a21 [*] r11 [+] a22 [*] r21;
              a20 [*] r02 [+] a21 [*] r12 [+] a22 [*] r22 ] ]) /\
    (forall u0 u1 u2,
        T_ref = [[u0]; [u1]; [u2]] ->
        translation (body_Pose_cam_ m) = [[u0 [+] t0]; [u1 [+] t1]; [u2 [+] t2]]) /\
    (R_ref = eye 3 3 -> all_finite R_parsed ->
     mat_eqb (rotation (body_Pose_cam_ m)) R_parsed = true) /\
    (R_ref = eye 3 3 -> all_regular R_parsed ->
     rotation (body_Pose_cam_ m) = R_parsed) /\
    (T_ref = zeros 3 1 -> all_finite T_parsed ->
     mat_eqb (translation (body_Pose_cam_ m)) T_parsed = true) /\
    (T_ref = zeros 3 1 -> all_regular T_parsed ->
     translation (body_Pose_cam_ m) = T_parsed).
Proof.
  intros H.
  apply parseKITTICalib_Ok in H as (ls' & st & cal & [= <-] & Hs & _ & _ & _ & _ & _ & ->).
  destruct (scan_lines_cvR _ _ _ _ Hs shaped_zeros_3_3) as [HmR HR].
  destruct (scan_lines_cvT _ _ _ _ Hs shaped_zeros_3_1) as [HmT HT].
  cbn [cvR cvT] in HR, HT.
  assert (HR' : parsed_matrix 3 3 (record (label_of "R" cam_id) ls) = Ok (cvR st)).
  { destruct (record (label_of "R" cam_id) ls); [exact HR|]. rewrite HR. reflexivity. }
  assert (HT' : parsed_matrix 3 1 (record (label_of "T" cam_id) ls) = Ok (cvT st)).
  { destruct (record (label_of "T" cam_id) ls); [exact HT|]. rewrite HT. reflexivity. }
  clear HR HT.
  pose proof HmR as HmR'. pose proof HmT as HmT'.
  apply shaped_3_3 in HmR' as (r00 & r01 & r02 & r10 & r11 & r12 & r20 & r21 & r22 & ER).
  apply shaped_3_1 in HmT' as (t0 & t1 & t2 & ET).
  exists r00, r01, r02, r10, r11, r12, r20, r21, r22, t0, t1, t2.
  cbn zeta. rewrite <- ER, <- ET.
  cbn [set_pose_calibration body_Pose_cam_ Cvmats2pose rotation translation].
  split; [exact HR'|]. split; [exact HT'|].
  split; [|split; [|repeat split]].
  - intros a00 a01 a02 a10 a11 a12 a20 a21 a22 ->. rewrite ER. reflexivity.
  - intros u0 u1 u2 ->. rewrite ET. reflexivity.
  - intros -> Hr. apply mat_mul_eye_3_3_eqb; assumption.
  - intros -> Hr. apply mat_mul_eye_3_3; assumption.
  - intros -> Hr. apply mat_add_zeros_3_1_eqb; assumption.
  - intros -> Hr. apply mat_add_zeros_3_1; assumption.
Qed.

Lemma kitti_pose_composition_witness :
  rotation (body_Pose_cam_ kitti_turned_model)
  = int_matrix [[-4; -5; -6]; [1; 2; 3]; [7; 8; 9]] /\
  translation (body_Pose_cam_ kitti_turned_model) = int_matrix [[11]; [22]; [33]].
Proof.
  destruct (kitti_pose_composition fresh kitti_turned_txt quarter_turn offset_123
              "0"%string true kitti_turned_model kitti_turned_parses)
    as (r00 & r01 & r02 & r10 & r11 & r12 & r20 & r21 & r22 & t0 & t1 & t2
        & HR & HT & Hrot & Htr & _).
  vm_compute in HR. injection HR as <- <- <- <- <- <- <- <- <-.
  vm_compute in HT. injection HT as <- <- <-.
  split.
  - rewrite (Hrot _ _ _ _ _ _ _ _ _ eq_refl). vm_compute. reflexivity.
  - rewrite (Htr _ _ _ eq_refl). vm_compute. reflexivity.
Defined.

(** ** The legacy parser: records that never occur *)

Lemma scan_step_eq cam_id st l st1 st2 :
  scan_step cam_id st l st1 -> st1 = st2 -> scan_step cam_id st l st2.
Proof. intros H <-. exact H. Qed.

(** Dropping the lines of a label from a file whose scan returns: the scan
    still returns, in the state that forgets what those lines wrote. *)
Lemma scan_lines_without cam_id lbl (g : scan -> scan) :
  (forall st l st1, has_label lbl l = false ->
     scan_step cam_id st l st1 -> scan_step cam_id (g st) l (g st1)) ->
  (forall st l st1, has_label lbl l = true ->
     scan_step cam_id st l st1 -> g st1 = g st) ->
  forall ls st st',
    scan_lines cam_id st ls = Ok st' ->
    scan_lines cam_id (g st) (without lbl ls) = Ok (g st').
Proof.
  intros Hother Hlbl ls. induction ls as [|l ls IH]; intros st st' H;
    cbn [scan_lines without List.filter] in *.
  - injection H as <-. reflexivity.
  - ok_inv H. apply scan_line_step in E. fold (without lbl ls).
    destruct (has_label lbl l) eqn:Hl; cbn [negb scan_lines].
    + rewrite <- (Hlbl _ _ _ Hl E). apply IH, H.
    + apply (Hother _ _ _ Hl), scan_line_step in E. rewrite E.
      cbn [mbind result_bind]. apply IH, H.
Qed.

(** The cases of a step on a line whose label is known not to be, or known to
    be, the one of a record. *)
Ltac step_cases H Hl :=
  destruct H; cbn [has_label] in Hl;
  try (rewrite label_eqb_refl in Hl; discriminate Hl);
  try (rewrite label_eqb_other in Hl by (congruence || reflexivity); discriminate Hl).

Ltac same_step :=
  eapply scan_step_eq; [econstructor; eassumption | reflexivity].

Lemma unrecognized_has_label cam_id p l :
  In p ["S"; "K"; "D"; "R"; "T"]%string ->
  unrecognized cam_id l = true -> has_label (label_of p cam_id) l = false.
Proof.
  intros Hp H. destruct l as [|label rest]; [reflexivity|].
  cbn [unrecognized has_label] in *.
  apply negb_true_iff in H. repeat (apply orb_false_iff in H as [H ?]).
  cbn in Hp. destruct Hp as [<-|[<-|[<-|[<-|[<-|[]]]]]]; assumption.
Qed.

Lemma scan_lines_without_S cam_id sz ls st st' :
  scan_lines cam_id st ls = Ok st' ->
  scan_lines cam_id (with_image_size sz st) (without (label_of "S" cam_id) ls)
  = Ok (with_image_size sz st').
Proof.
  apply scan_lines_without.
  - intros s l s1 Hl H. step_cases H Hl; try same_step.
  - intros s l s1 Hl H. step_cases H Hl; reflexivity.
Qed.

Lemma scan_lines_without_R cam_id R ls st st' :
  scan_lines cam_id st ls = Ok st' ->
  scan_lines cam_id (with_cvR R st) (without (label_of "R" cam_id) ls)
  = Ok (with_cvR R st').
Proof.
  apply scan_lines_without.
  - intros s l s1 Hl H. step_cases H Hl; try same_step.
  - intros s l s1 Hl H. step_cases H Hl; reflexivity.
Qed.

Lemma scan_lines_without_T cam_id T ls st st' :
  scan_lines cam_id st ls = Ok st' ->
  scan_lines cam_id (with_cvT T st) (without (label_of "T" cam_id) ls)
  = Ok (with_cvT T st').
Proof.
  apply scan_lines_without.
  - intros s l s1 Hl H. step_cases H Hl; try same_step.
  - intros s l s1 Hl H. step_cases H Hl; reflexivity.
Qed.

Lemma parseKITTICalib_intro this ls R_ref T_ref cam_id st cal :
  scan_lines cam_id
    {| params := set_frame_rate (Double.div Double.one (Double.of_int 10)) this;
       cvR := zeros 3 3; cvT := zeros 3 1; distortion_coeff5_ := [] |} ls = Ok st ->
  cols R_ref = rows (cvR st) ->
  rows T_ref = rows (cvT st) -> cols T_ref = cols (cvT st) ->
  build_calibration (intrinsics_ (params st)) (distortion_coeff5_ st) = Ok cal ->
  parseKITTICalib this (Some ls) R_ref T_ref cam_id
  = Ok (true,
        set_pose_calibration
          (Cvmats2pose (mat_mul R_ref (cvR st)) (mat_add T_ref (cvT st))) cal (params st)).
Proof.
  intros Hs HR HT1 HT2 Hk. unfold parseKITTICalib. rewrite Hs. cbn [mbind result_bind].
  unfold cv_mul, cv_add. rewrite HR, HT1, HT2, !Nat.eqb_refl. cbn [andb mbind result_bind].
  rewrite Hk. reflexivity.
Qed.

Lemma scan_step_no_K cam_id st l st' :
  has_label (label_of "K" cam_id) l = false ->
  scan_step cam_id st l st' ->
  intrinsics_ (params st') = intrinsics_ (params st).
Proof. intros Hl H. step_cases H Hl; reflexivity. Qed.

Lemma scan_lines_no_K cam_id ls st st' :
  absent (label_of "K" cam_id) ls ->
  scan_lines cam_id st ls = Ok st' ->
  intrinsics_ (params st') = intrinsics_ (params st).
Proof.
  intros Ha. revert st. induction Ha as [|l ls Hl Ha IH]; intros st H;
    cbn [scan_lines] in H.
  - injection H as <-. reflexivity.
  - ok_inv H. apply scan_line_step in E.
    rewrite (IH _ H). apply (scan_step_no_K _ _ _ _ Hl E).
Qed.

Lemma distortion_values_absent cam_id ls :
  absent (label_of "D" cam_id) ls -> distortion_values cam_id ls = [].
Proof.
  intros Ha. induction Ha as [|l ls Hl Ha IH]; [reflexivity|].
  cbn [distortion_values]. destruct l as [|label rest]; [exact IH|].
  cbn [has_label] in Hl. rewrite Hl. exact IH.
Qed.

(** C9, the counterexample. The file of scenario 2 without its line of label
    K, and the same file without its line of label D, read into a model
    constructed empty: the call does not return, the calibration is built
    from a vector read out of range. *)
Lemma kitti_missing_K_or_D_undefined :
  parseKITTICalib fresh (Some kitti_no_K_txt) (eye 3 3) (zeros 3 1) "0" = Undefined /\
  parseKITTICalib fresh (Some kitti_no_D_txt) (eye 3 3) (zeros 3 1) "0" = Undefined.
Proof. split; vm_compute; reflexivity. Qed.

(** C9, as amended. A file that parses still parses without its lines of
    label S, of label R or of label T, and no error is detected: the image
    size is then the one the model had before the call; the rotation parsed
    stays zero, so the rotation of the pose is the caller's rotation times
    the zero matrix; the translation parsed stays zero, so the translation of
    the pose is the caller's translation plus the zero vector. Without a line
    of label K, a model that had fewer than four intrinsics before the call
    keeps them and the call does not return; without a line of label D the
    call does not return. *)
Theorem kitti_missing_records cam_id this R_ref T_ref :
  (forall ls b m,
      parseKITTICalib this (Some ls) R_ref T_ref cam_id = Ok (b, m) ->
      parseKITTICalib this (Some (without (label_of "S" cam_id) ls)) R_ref T_ref cam_id
      = Ok (true, set_image_size (image_size_ this) m) /\
      parseKITTICalib this (Some (without (label_of "R" cam_id) ls)) R_ref T_ref cam_id
      = Ok (true,
            set_pose_calibration
              (Cvmats2pose (mat_mul R_ref (zeros 3 3)) (translation (body_Pose_cam_ m)))
              (calibration_ m) m) /\
      parseKITTICalib this (Some (without (label_of "T" cam_id) ls)) R_ref T_ref cam_id
      = Ok (true,
            set_pose_calibration
              (Cvmats2pose (rotation (body_Pose_cam_ m)) (mat_add T_ref (zeros 3 1)))
              (calibration_ m) m)) /\
  (forall ls,
      absent (label_of "K" cam_id) ls ->
      (length (intrinsics_ this) < 4)%nat ->
      ~ returns (parseKITTICalib this (Some ls) R_ref T_ref cam_id)) /\
  (forall ls,
      absent (label_of "D" cam_id) ls ->
      ~ returns (parseKITTICalib this (Some ls) R_ref T_ref cam_id)).
Proof.
  split; [|split].
  - intros ls b m H.
    apply parseKITTICalib_Ok in H
      as (ls' & st & cal & [= <-] & Hs & HR & HT1 & HT2 & Hk & _ & ->).
    destruct (scan_lines_cvR _ _ _ _ Hs shaped_zeros_3_3) as [[HmR _] _].
    destruct (scan_lines_cvT _ _ _ _ Hs shaped_zeros_3_1) as [HmT _].
    apply shaped_3_1 in HmT as (t0 & t1 & t2 & HmT).
    split; [|split].
    + apply (scan_lines_without_S cam_id (image_size_ this)) in Hs.
      apply (parseKITTICalib_intro this _ R_ref T_ref cam_id _ cal Hs); assumption.
    + apply (scan_lines_without_R cam_id (zeros 3 3)) in Hs.
      apply (parseKITTICalib_intro this _ R_ref T_ref cam_id _ cal Hs);
        try assumption.
      cbn [with_cvR cvR]. rewrite HR. exact HmR.
    + apply (scan_lines_without_T cam_id (zeros 3 1)) in Hs.
      apply (parseKITTICalib_intro this _ R_ref T_ref cam_id _ cal Hs);
        try assumption; cbn [with_cvT cvT].
      * rewrite HT1, HmT. reflexivity.
      * rewrite HT2, HmT. reflexivity.
  - intros ls Ha Hlen [[b m] H].
    apply parseKITTICalib_Ok in H as (ls' & st & cal & [= <-] & Hs & _ & _ & _ & Hk & _).
    apply (scan_lines_no_K _ _ _ _ Ha) in Hs. cbn in Hs.
    apply build_calibration_Ok in Hk
      as (i0 & i1 & i2 & i3 & ? & ? & ? & ? & _ & _ & _ & H3 & _).
    apply lookup_lt_Some in H3. rewrite Hs in H3. lia.
  - intros ls Ha [[b m] H].
    apply parseKITTICalib_Ok in H as (ls' & st & cal & [= <-] & Hs & _ & _ & _ & Hk & _).
    apply scan_lines_distortion_values in Hs.
    rewrite (distortion_values_absent _ _ Ha) in Hs. cbn in Hs.
    apply build_calibration_Ok in Hk
      as (? & ? & ? & ? & c0 & ? & ? & ? & _ & _ & _ & _ & H0 & _).
    rewrite Hs in H0. discriminate.
Qed.

Lemma kitti_missing_records_witness :
  parseKITTICalib fresh (Some (without "S_0:" kitti_txt)) (eye 3 3) (zeros 3 1) "0"
  = Ok (true, set_image_size {| width := 0; height := 0 |} kitti_model) /\
  ~ returns (parseKITTICalib fresh (Some kitti_no_K_txt) (eye 3 3) (zeros 3 1) "0").
Proof.
  split.
  - exact (proj1 (proj1 (kitti_missing_records "0" fresh (eye 3 3) (zeros 3 1))
                    kitti_txt true kitti_model kitti_parses)).
  - apply (proj1 (proj2 (kitti_missing_records "0" fresh (eye 3 3) (zeros 3 1)))).
    + repeat constructor.
    + cbn. lia.
Defined.

(** ** Equality up to a tolerance *)

Section EqualityFacts.

Variable Pose3_equals : Pose3 -> Pose3 -> double -> bool.
Variable Cal3DS2_equals : Cal3DS2 -> Cal3DS2 -> double -> bool.
Variable CvMatCmp : Mat -> Mat -> bool.

(** At tolerance zero the clause on the frame rate, [fabs(...) < tol], is
    false, whatever the two models are. *)
Lemma equals_zero_tolerance a b r :
  equals Pose3_equals Cal3DS2_equals CvMatCmp a b Double.zero = Ok r -> r = false.
Proof.
  unfold equals. intros H. ok_inv H. injection H as <-.
  rewrite DoubleFacts.fabs_ltb_zero, andb_false_r. reflexivity.
Qed.

Lemma areIntrinsicEqual_mono mine i theirs t t' :
  areIntrinsicEqual mine i theirs t = Ok true ->
  Double.gtb t' t = true ->
  areIntrinsicEqual mine i theirs t' = Ok true.
Proof.
  intros H Ht. revert i H.
  induction mine as [|x mine IH]; intros i H; cbn [areIntrinsicEqual] in *; [exact H|].
  apply bind_Ok in H as (y & -> & H). cbn [mbind result_bind].
  destruct (Double.gtb (Double.fabs (Double.sub x y)) t) eqn:Hx; [discriminate H|].
  rewrite (DoubleFacts.gtb_false_mono _ _ _ Hx Ht). apply IH, H.
Qed.

(** C6. [equals] is monotonic in its tolerance: when it returns true at a
    tolerance [t], it returns true at every tolerance [t' > t]. The
    comparisons of poses and of calibrations, which [equals] calls with the
    same tolerance, are taken monotonic too. *)
Theorem equals_tolerance_monotone a b t t' :
  tolerance_monotone Pose3_equals ->
  tolerance_monotone Cal3DS2_equals ->
  equals Pose3_equals Cal3DS2_equals CvMatCmp a b t = Ok true ->
  Double.gtb t' t = true ->
  equals Pose3_equals Cal3DS2_equals CvMatCmp a b t' = Ok true.
Proof.
  intros Hpose Hcal H Ht. unfold equals in *.
  apply bind_Ok in H as (r & Hi & H). injection H as H.
  repeat (apply andb_true_iff in H as [H ?]). subst r.
  rewrite (areIntrinsicEqual_mono _ _ _ _ _ Hi Ht). cbn [mbind result_bind].
  rewrite (Hpose _ _ t t') by assumption.
  rewrite (DoubleFacts.ltb_trans _ t t') by assumption.
  rewrite (Hcal _ _ t t') by assumption.
  repeat match goal with E : _ = true |- _ => rewrite E; clear E end.
  reflexivity.
Qed.

End EqualityFacts.

(** C5, on the code: the model of scenario 1 compared with itself at
    tolerance 0. [equals] returns false, whatever the comparisons of poses,
    calibrations and matrices answer, because the frame rates are compared
    with [<] and [fabs(frame_rate_ - frame_rate_)] is 0. *)
Theorem equals_self_at_zero_is_false Pose3_equals Cal3DS2_equals CvMatCmp :
  parseYAML fresh euroc_yaml = Ok (true, euroc_model) /\
  equals Pose3_equals Cal3DS2_equals CvMatCmp euroc_model euroc_model Double.zero
  = Ok false.
Proof.
  split; [exact euroc_parses|].
  destruct (equals Pose3_equals Cal3DS2_equals CvMatCmp euroc_model euroc_model
              Double.zero) as [r| |] eqn:E.
  - apply equals_zero_tolerance in E as ->. reflexivity.
  - unfold equals in E. vm_compute in E. discriminate E.
  - unfold equals in E. vm_compute in E. discriminate E.
Qed.

(** Running [equals] with the comparisons within a tolerance. *)
Lemma within_mono x y t t' :
  within t x y = true -> Double.gtb t' t = true -> within t' x y = true.
Proof.
  unfold within. intros H%negb_true_iff Ht.
  rewrite (DoubleFacts.gtb_false_mono _ _ _ H Ht). reflexivity.
Qed.

Lemma all2_impl {A : Type} (p q : A -> A -> bool) xs ys :
  (forall x y, p x y = true -> q x y = true) ->
  all2 p xs ys = true -> all2 q xs ys = true.
Proof.
  intros Hpq. revert ys. induction xs as [|x xs IH]; intros [|y ys] H; cbn [all2] in *;
    try discriminate; [reflexivity|].
  apply andb_true_iff in H as [H1 H2]. rewrite (Hpq _ _ H1), (IH _ H2). reflexivity.
Qed.

Lemma Mat_within_mono : tolerance_monotone Mat_within.
Proof.
  intros a b t t' H Ht. unfold Mat_within in *.
  eapply all2_impl; [|exact H]. intros r r'. apply all2_impl.
  intros x y Hx. exact (within_mono _ _ _ _ Hx Ht).
Qed.

Lemma Pose3_within_mono : tolerance_monotone Pose3_within.
Proof.
  intros p q t t' H Ht. unfold Pose3_within in *.
  apply andb_true_iff in H as [H1 H2].
  rewrite (Mat_within_mono _ _ _ _ H1 Ht), (Mat_within_mono _ _ _ _ H2 Ht). reflexivity.
Qed.

Lemma Cal3DS2_within_mono : tolerance_monotone Cal3DS2_within.
Proof.
  intros a b t t' H Ht. unfold Cal3DS2_within in *.
  repeat (apply andb_true_iff in H as [H ?]).
  repeat match goal with
         | E : within t _ _ = true |- _ => apply (fun E' => within_mono _ _ _ _ E' Ht) in E; rewrite E; clear E
         end.
  reflexivity.
Qed.

Lemma equals_tolerance_monotone_witness :
  equals Pose3_within Cal3DS2_within CvMatCmp_elementwise euroc_model euroc_model
    (Double.ratio 1 1000) = Ok true.
Proof.
  apply (equals_tolerance_monotone Pose3_within Cal3DS2_within CvMatCmp_elementwise
           euroc_model euroc_model (Double.ratio 1 1000000000) (Double.ratio 1 1000)).
  - exact Pose3_within_mono.
  - exact Cal3DS2_within_mono.
  - vm_compute. reflexivity.
  - vm_compute. reflexivity.
Defined.

(** * Further properties *)

(** ** Doubles: differences and their absolute values *)

Module DoubleOrder.

(** Only a positive tolerance exceeds an absolute value. *)
Lemma fabs_ltb_positive x t :
  Double.ltb (Double.fabs x) t = true -> Double.ltb Double.zero t = true.
Proof.
  unfold Double.ltb, SFltb.
  destruct x as [[]|[]| |[] ? ?], t as [[]|[]| |[] ? ?]; simpl; congruence.
Qed.

Lemma sub_self_number x : is_number x = true -> Double.sub x x = Double.zero.
Proof.
  destruct x as [[]| | |s m e]; simpl; try discriminate; try reflexivity.
  intros _. unfold Double.sub. cbn [SFsub]. rewrite Z.sub_diag. reflexivity.
Qed.

Lemma sub_self_special x : is_number x = false -> Double.sub x x = S754_nan.
Proof. destruct x as [[]|[]| |s m e]; simpl; try discriminate; reflexivity. Qed.

(** [fabs(x - x) > t] is false for a positive [t], whatever [x] is. *)
Lemma fabs_sub_self_gtb x t :
  Double.ltb Double.zero t = true ->
  Double.gtb (Double.fabs (Double.sub x x)) t = false.
Proof.
  intros Ht. destruct (is_number x) eqn:Hx.
  - rewrite (sub_self_number x Hx). revert Ht. unfold Double.ltb, Double.gtb, SFltb.
    destruct t as [[]|[]| |[] ? ?]; simpl; congruence.
  - rewrite (sub_self_special x Hx). unfold Double.gtb, SFltb.
    destruct t as [[]|[]| |[] ? ?]; reflexivity.
Qed.

Lemma abs_binary_round s s' m e :
  SFabs (binary_round Double.prec Double.emax s m e)
  = SFabs (binary_round Double.prec Double.emax s' m e).
Proof.
  unfold binary_round, binary_round_aux.
  destruct (shl_align _ _ _) as [mz ez].
  destruct (shr_fexp _ _ _ _ _) as [mrs' e'].
  destruct (shr_fexp _ _ _ _ _) as [mrs'' e''].
  destruct (shr_m mrs''); try reflexivity.
  destruct (Z.leb _ _); reflexivity.
Qed.

Lemma abs_binary_normalize_opp a e :
  SFabs (binary_normalize Double.prec Double.emax a e false)
  = SFabs (binary_normalize Double.prec Double.emax (- a) e false).
Proof. destruct a; cbn [binary_normalize Z.opp]; [reflexivity | apply abs_binary_round ..]. Qed.

(** [fabs(x - y)] is [fabs(y - x)]. *)
Lemma fabs_sub_sym x y :
  Double.fabs (Double.sub x y) = Double.fabs (Double.sub y x).
Proof.
  unfold Double.fabs, Double.sub.
  destruct x as [[]|[]| |sx mx ex], y as [[]|[]| |sy my ey]; try reflexivity.
  cbn [SFsub]. rewrite (Z.min_comm ey ex).
  rewrite abs_binary_normalize_opp. f_equal. f_equal. lia.
Qed.

End DoubleOrder.

(** ** [equals]: what it reads, and when it can hold *)

Section EqualsFacts.

Variable Pose3_equals : Pose3 -> Pose3 -> double -> bool.
Variable Cal3DS2_equals : Cal3DS2 -> Cal3DS2 -> double -> bool.
Variable CvMatCmp : Mat -> Mat -> bool.

(** The loop returns true exactly when every intrinsic of [mine] has a
    counterpart at its index in [theirs] that it does not differ from by
    more than the tolerance. *)
Lemma areIntrinsicEqual_true mine i theirs t :
  areIntrinsicEqual mine i theirs t = Ok true <->
  (forall k x, mine !! k = Some x ->
     exists y, theirs !! (i + k)%nat = Some y /\
               Double.gtb (Double.fabs (Double.sub x y)) t = false).
Proof.
  revert i. induction mine as [|x mine IH]; intros i; cbn [areIntrinsicEqual].
  - split; [intros _ k x [=] | reflexivity].
  - split.
    + intros H. apply bind_Ok in H as (y & Hy%at_Ok & H).
      destruct (Double.gtb _ t) eqn:Hx; [discriminate H|].
      pose proof (proj1 (IH _) H) as H'. clear H. rename H' into H.
      intros [|k] x' Hk; cbn in Hk.
      * injection Hk as <-. exists y. rewrite Nat.add_0_r. auto.
      * destruct (H k x' Hk) as (y' & Hy' & Hc). exists y'.
        rewrite <- Nat.add_succ_comm. auto.
    + intros H. destruct (H 0%nat x eq_refl) as (y & Hy & Hc).
      rewrite Nat.add_0_r in Hy. rewrite (at_lookup _ _ _ Hy). cbn [mbind result_bind].
      rewrite Hc. apply (proj2 (IH _)). intros k x' Hk.
      destruct (H (S k) x' Hk) as (y' & Hy' & Hc'). exists y'.
      rewrite Nat.add_succ_comm. auto.
Qed.

(** The loop returns when [theirs] reaches as far as [mine]. *)
Lemma areIntrinsicEqual_returns mine i theirs t :
  (i + length mine <= length theirs)%nat ->
  returns (areIntrinsicEqual mine i theirs t).
Proof.
  revert i. induction mine as [|x mine IH]; intros i Hlen; cbn [areIntrinsicEqual].
  - eexists. reflexivity.
  - cbn [length] in Hlen. destruct (lookup_lt_is_Some_2 theirs i) as [y Hy]; [lia|].
    rewrite (at_lookup _ _ _ Hy). cbn [mbind result_bind].
    destruct (Double.gtb _ t); [eexists; reflexivity|]. apply IH. lia.
Qed.

(** The loop runs out of [theirs] when [mine] is longer and no pair differs
    by more than the tolerance before. *)
Lemma areIntrinsicEqual_out_of_range mine i theirs t :
  (i <= length theirs < i + length mine)%nat ->
  (forall k x y, mine !! k = Some x -> theirs !! (i + k)%nat = Some y ->
     Double.gtb (Double.fabs (Double.sub x y)) t = false) ->
  areIntrinsicEqual mine i theirs t = Undefined.
Proof.
  revert i. induction mine as [|x mine IH]; intros i Hlen H; cbn [areIntrinsicEqual].
  - cbn [length] in Hlen. lia.
  - unfold at_. destruct (theirs !! i) as [y|] eqn:Hy; [|reflexivity].
    cbn [mbind result_bind].
    rewrite (H 0%nat x y eq_refl) by (rewrite Nat.add_0_r; exact Hy).
    apply lookup_lt_Some in Hy. cbn [length] in Hlen. apply IH; [lia|].
    intros k x' y' Hk Hk'. apply (H (S k) x' y' Hk).
    rewrite <- Nat.add_succ_comm. exact Hk'.
Qed.

(** What [theirs] holds past the end of [mine] is not read. *)
Lemma areIntrinsicEqual_app mine i theirs extra t r :
  areIntrinsicEqual mine i theirs t = Ok r ->
  areIntrinsicEqual mine i (theirs ++ extra) t = Ok r.
Proof.
  revert i. induction mine as [|x mine IH]; intros i H; cbn [areIntrinsicEqual] in *.
  - exact H.
  - apply bind_Ok in H as (y & Hy%at_Ok & H).
    rewrite (at_lookup _ _ _ (lookup_app_l_Some _ _ _ _ Hy)). cbn [mbind result_bind].
    destruct (Double.gtb _ t); [exact H|]. apply IH, H.
Qed.

Lemma areIntrinsicEqual_self pre l t :
  Double.ltb Double.zero t = true ->
  areIntrinsicEqual l (length pre) (pre ++ l) t = Ok true.
Proof.
  intros Ht. apply areIntrinsicEqual_true. intros k x Hk. exists x. split.
  - rewrite lookup_app_r by lia. rewrite <- Hk. f_equal. lia.
  - apply DoubleOrder.fabs_sub_self_gtb, Ht.
Qed.

Lemma areIntrinsicEqual_sym la lb pa pb t :
  length la = length lb -> length pa = length pb ->
  areIntrinsicEqual la (length pa) (pb ++ lb) t
  = areIntrinsicEqual lb (length pb) (pa ++ la) t.
Proof.
  revert lb pa pb. induction la as [|x la IH]; intros [|y lb] pa pb Hl Hp;
    try discriminate Hl; [reflexivity|].
  cbn [areIntrinsicEqual]. unfold at_.
  rewrite (list_lookup_middle pb lb y (length pa)) by exact Hp.
  rewrite (list_lookup_middle pa la x (length pb)) by (symmetry; exact Hp).
  cbn [mbind result_bind].
  rewrite (DoubleOrder.fabs_sub_sym y x).
  destruct (Double.gtb _ t); [reflexivity|].
  injection Hl as Hl.
  specialize (IH lb (pa ++ [x]) (pb ++ [y]) Hl).
  rewrite !length_app, <- !app_assoc in IH. cbn [length app] in IH.
  rewrite !Nat.add_1_r in IH. apply IH. congruence.
Qed.

(** X1. [equals] can return true at a positive tolerance only: at a
    tolerance that is zero, negative or a NaN it never does, whatever the
    two models are. *)
Theorem equals_true_positive_tolerance a b t :
  equals Pose3_equals Cal3DS2_equals CvMatCmp a b t = Ok true ->
  Double.ltb Double.zero t = true.
Proof.
  unfold equals. intros H. apply bind_Ok in H as (r & _ & H). injection H as H.
  repeat (apply andb_true_iff in H as [H ?]).
  eapply DoubleOrder.fabs_ltb_positive. eassumption.
Qed.

(** X2. A model whose frame rate is neither infinite nor a NaN equals itself
    at every positive tolerance, when the comparisons of poses, calibrations
    and matrices accept it compared with itself. *)
Theorem equals_reflexive_positive_tolerance m t :
  is_number (frame_rate_ m) = true ->
  Double.ltb Double.zero t = true ->
  self_accepted Pose3_equals Cal3DS2_equals CvMatCmp m t ->
  equals Pose3_equals Cal3DS2_equals CvMatCmp m m t = Ok true.
Proof.
  intros Hf Ht (Hp & Hc & Hm). unfold equals.
  pose proof (areIntrinsicEqual_self [] (intrinsics_ m) t Ht) as Hi.
  cbn [length app] in Hi. rewrite Hi. cbn [mbind result_bind].
  rewrite Hp, Hc, (DoubleOrder.sub_self_number _ Hf), !Z.eqb_refl.
  change (Double.fabs Double.zero) with Double.zero. rewrite Ht.
  repeat (apply Forall_cons in Hm as [E Hm]; rewrite E; clear E).
  reflexivity.
Qed.


(** X4. [equals] reads of [camPar.intrinsics_] only as many entries as
    [this] has intrinsics: further intrinsics of [camPar] do not change what
    it returns. *)
Theorem equals_ignores_further_intrinsics a b extra t r :
  equals Pose3_equals Cal3DS2_equals CvMatCmp a b t = Ok r ->
  equals Pose3_equals Cal3DS2_equals CvMatCmp a
    (with_intrinsics (intrinsics_ b ++ extra) b) t = Ok r.
Proof.
  unfold equals. intros H. apply bind_Ok in H as (r' & Hi & H).
  cbn [with_intrinsics set_intrinsics intrinsics_ body_Pose_cam_ frame_rate_
       image_size_ calibration_ camera_matrix_ distortion_coeff_ undistRect_map_x_
       undistRect_map_y_ R_rectify_ P_].
  rewrite (areIntrinsicEqual_app _ _ _ extra _ _ Hi). exact H.
Qed.

(** X5. [equals] returns when [camPar] has at least as many intrinsics as
    [this]. When it has fewer, and none of those it has differs from the one
    of [this] by more than the tolerance, [camPar.intrinsics_] is read out of
    range. *)
Theorem equals_intrinsics_bounds a b t :
  ((length (intrinsics_ a) <= length (intrinsics_ b))%nat ->
   returns (equals Pose3_equals Cal3DS2_equals CvMatCmp a b t)) /\
  ((length (intrinsics_ b) < length (intrinsics_ a))%nat ->
   (forall k x y, intrinsics_ a !! k = Some x -> intrinsics_ b !! k = Some y ->
      Double.gtb (Double.fabs (Double.sub x y)) t = false) ->
   equals Pose3_equals Cal3DS2_equals CvMatCmp a b t = Undefined).
Proof.
  split.
  - intros Hlen. unfold equals.
    destruct (areIntrinsicEqual_returns (intrinsics_ a) 0 (intrinsics_ b) t Hlen) as [r Hr].
    rewrite Hr. eexists. reflexivity.
  - intros Hlen H. unfold equals.
    rewrite areIntrinsicEqual_out_of_range; [reflexivity | lia | exact H].
Qed.

(** X6. Between two models with as many intrinsics, [equals] does not depend
    on which one is [this], when the comparisons of poses, calibrations and
    matrices do not. *)
Theorem equals_symmetric a b t :
  symmetric3 Pose3_equals -> symmetric3 Cal3DS2_equals -> symmetric2 CvMatCmp ->
  length (intrinsics_ a) = length (intrinsics_ b) ->
  equals Pose3_equals Cal3DS2_equals CvMatCmp a b t
  = equals Pose3_equals Cal3DS2_equals CvMatCmp b a t.
Proof.
  intros Hp Hc Hm Hlen. unfold equals.
  pose proof (areIntrinsicEqual_sym (intrinsics_ a) (intrinsics_ b) [] [] t Hlen eq_refl)
    as Hi.
  cbn [length app] in Hi. rewrite Hi.
  rewrite (Hp (body_Pose_cam_ a)), (Hc (calibration_ a)).
  rewrite (DoubleOrder.fabs_sub_sym (frame_rate_ a)).
  rewrite (Z.eqb_sym (width (image_size_ a))), (Z.eqb_sym (height (image_size_ a))).
  rewrite (Hm (camera_matrix_ a)), (Hm (distortion_coeff_ a)),
    (Hm (undistRect_map_x_ a)), (Hm (undistRect_map_y_ a)),
    (Hm (R_rectify_ a)), (Hm (P_ a)).
  reflexivity.
Qed.

(** X7. A model that [parseYAML] built from an input whose [rate_hz] is zero
    does not equal itself at any tolerance: its frame rate is infinite, and
    the difference of an infinity and itself is a NaN. *)
Theorem zero_rate_model_never_equals_itself this fs b m t :
  fs_rate_hz fs = 0 ->
  parseYAML this fs = Ok (b, m) ->
  equals Pose3_equals Cal3DS2_equals CvMatCmp m m t = Ok false.
Proof.
  intros Hr H.
  apply parseYAML_Ok in H as (dc & w & h & pose & cm & cal & _ & _ & _ & _ & _ & _ & _ & _ & ->).
  unfold equals.
  cbn [intrinsics_ body_Pose_cam_ frame_rate_ image_size_ calibration_ camera_matrix_
       distortion_coeff_ undistRect_map_x_ undistRect_map_y_ R_rectify_ P_].
  destruct (areIntrinsicEqual_returns (fs_intrinsics fs) 0 (fs_intrinsics fs) t (le_n _))
    as [r ->].
  cbn [mbind result_bind]. rewrite Hr.
  change (Double.ltb (Double.fabs (Double.sub (Double.div Double.one (Double.of_int 0))
                                      (Double.div Double.one (Double.of_int 0)))) t)
    with (Double.ltb S754_nan t).
  change (Double.ltb S754_nan t) with false.
  rewrite andb_false_r. reflexivity.
Qed.

End EqualsFacts.

(** Running [equals] on the models of the scenarios, with the comparisons
    within a tolerance. *)
Lemma euroc_equals_itself :
  equals Pose3_within Cal3DS2_within CvMatCmp_elementwise euroc_model euroc_model
    (Double.ratio 1 1000) = Ok true.
Proof. vm_compute. reflexivity. Qed.

Lemma euroc_zero_rate_parses :
  parseYAML fresh (with_rate_hz 0 euroc_yaml)
  = Ok (true, set_frame_rate Double.infinity euroc_model).
Proof. vm_compute. reflexivity. Qed.

Lemma within_sym t x y : within t x y = within t y x.
Proof. unfold within. rewrite DoubleOrder.fabs_sub_sym. reflexivity. Qed.

Lemma all2_sym {A : Type} (p : A -> A -> bool) xs ys :
  (forall x y, p x y = p y x) -> all2 p xs ys = all2 p ys xs.
Proof.
  intros Hp. revert ys. induction xs as [|x xs IH]; intros [|y ys]; cbn [all2];
    try reflexivity.
  rewrite (Hp x y), IH. reflexivity.
Qed.

Lemma Mat_within_sym : symmetric3 Mat_within.
Proof.
  intros a b t. unfold Mat_within. apply all2_sym. intros r r'.
  apply all2_sym. apply within_sym.
Qed.

Lemma Pose3_within_sym : symmetric3 Pose3_within.
Proof.
  intros p q t. unfold Pose3_within.
  rewrite (Mat_within_sym (rotation p)), (Mat_within_sym (translation p)). reflexivity.
Qed.

Lemma Cal3DS2_within_sym : symmetric3 Cal3DS2_within.
Proof.
  intros a b t. unfold Cal3DS2_within.
  rewrite (within_sym t (fx a)), (within_sym t (fy a)), (within_sym t (skew a)),
    (within_sym t (u0 a)), (within_sym t (v0 a)), (within_sym t (k1 a)),
    (within_sym t (k2 a)), (within_sym t (p1 a)), (within_sym t (p2 a)).
  reflexivity.
Qed.

Lemma eqb_sym x y : Double.eqb x y = Double.eqb y x.
Proof.
  unfold Double.eqb, SFeqb.
  destruct x as [[]|[]| |[] mx ex], y as [[]|[]| |[] my ey]; simpl; try reflexivity;
    rewrite (Z.compare_antisym ex ey);
    change (Pos.compare_cont Eq mx my) with (Pos.compare mx my);
    change (Pos.compare_cont Eq my mx) with (Pos.compare my mx);
    rewrite (Pos.compare_antisym mx my);
    destruct (Z.compare ex ey), (Pos.compare mx my); reflexivity.
Qed.

Lemma CvMatCmp_elementwise_sym : symmetric2 CvMatCmp_elementwise.
Proof.
  intros a b. unfold CvMatCmp_elementwise. apply all2_sym. intros r r'.
  apply all2_sym. apply eqb_sym.
Qed.

Lemma equals_true_positive_tolerance_witness :
  Double.ltb Double.zero (Double.ratio 1 1000) = true.
Proof.
  exact (equals_true_positive_tolerance Pose3_within Cal3DS2_within CvMatCmp_elementwise
           euroc_model euroc_model (Double.ratio 1 1000) euroc_equals_itself).
Defined.

Lemma equals_reflexive_positive_tolerance_witness :
  equals Pose3_within Cal3DS2_within CvMatCmp_elementwise kitti_model kitti_model
    (Double.ratio 1 1000000000) = Ok true.
Proof.
  apply (equals_reflexive_positive_tolerance Pose3_within Cal3DS2_within
           CvMatCmp_elementwise kitti_model (Double.ratio 1 1000000000)).
  - reflexivity.
  - reflexivity.
  - split; [reflexivity|]. split; [reflexivity|]. repeat constructor.
Defined.


Lemma equals_ignores_further_intrinsics_witness :
  equals Pose3_within Cal3DS2_within CvMatCmp_elementwise euroc_model euroc_model_5
    (Double.ratio 1 1000) = Ok true.
Proof.
  exact (equals_ignores_further_intrinsics Pose3_within Cal3DS2_within
           CvMatCmp_elementwise euroc_model euroc_model [Double.one]
           (Double.ratio 1 1000) true euroc_equals_itself).
Defined.

Lemma equals_intrinsics_bounds_witness :
  returns (equals Pose3_within Cal3DS2_within CvMatCmp_elementwise euroc_model
             euroc_model_5 (Double.ratio 1 1000)) /\
  equals Pose3_within Cal3DS2_within CvMatCmp_elementwise euroc_model_5 euroc_model
    (Double.ratio 1 1000) = Undefined.
Proof.
  split.
  - apply (proj1 (equals_intrinsics_bounds Pose3_within Cal3DS2_within
                    CvMatCmp_elementwise euroc_model euroc_model_5 (Double.ratio 1 1000))).
    cbn. lia.
  - apply (proj2 (equals_intrinsics_bounds Pose3_within Cal3DS2_within
                    CvMatCmp_elementwise euroc_model_5 euroc_model (Double.ratio 1 1000))).
    + cbn. lia.
    + intros [|[|[|[|[|k]]]]] x y Hx Hy; cbn in Hx, Hy; try discriminate Hy;
        injection Hx as <-; injection Hy as <-; vm_compute; reflexivity.
Defined.

Lemma equals_symmetric_witness :
  equals Pose3_within Cal3DS2_within CvMatCmp_elementwise euroc_model kitti_model
    (Double.ratio 1 1000)
  = equals Pose3_within Cal3DS2_within CvMatCmp_elementwise kitti_model euroc_model
      (Double.ratio 1 1000).
Proof.
  apply (equals_symmetric Pose3_within Cal3DS2_within CvMatCmp_elementwise
           euroc_model kitti_model (Double.ratio 1 1000)).
  - exact Pose3_within_sym.
  - exact Cal3DS2_within_sym.
  - exact CvMatCmp_elementwise_sym.
  - reflexivity.
Defined.

Lemma zero_rate_model_never_equals_itself_witness :
  equals Pose3_within Cal3DS2_within CvMatCmp_elementwise
    (set_frame_rate Double.infinity euroc_model)
    (set_frame_rate Double.infinity euroc_model) (Double.ratio 1 1000) = Ok false.
Proof.
  apply (zero_rate_model_never_equals_itself Pose3_within Cal3DS2_within
           CvMatCmp_elementwise fresh (with_rate_hz 0 euroc_yaml) true).
  - reflexivity.
  - exact euroc_zero_rate_parses.
Defined.

(** ** [parseYAML]: when it returns, and what it depends on *)

Lemma bind_not_Fatal {A B : Type} (r : result A) (k : A -> result B) :
  r <> Fatal -> (forall a, k a <> Fatal) -> r ≫= k <> Fatal.
Proof.
  intros Hr Hk. destruct r; cbn; [apply Hk | destruct Hr; reflexivity | discriminate].
Qed.

Lemma at_not_Fatal {A : Type} (v : list A) k : at_ v k <> Fatal.
Proof. unfold at_. destruct (v !! k); discriminate. Qed.

Lemma fill_row_not_Fatal n k src m : fill_row n k src m <> Fatal.
Proof.
  revert k m. induction n as [|n IH]; intros k m; cbn [fill_row]; [discriminate|].
  apply bind_not_Fatal; [apply at_not_Fatal | intros; apply IH].
Qed.

Lemma fill_row_4_Ok src :
  (4 <= length src)%nat ->
  exists c0 c1 c2 c3 more,
    src = c0 :: c1 :: c2 :: c3 :: more /\
    fill_row 4 0 src (zeros 1 5) = Ok [[c0; c1; c2; c3; Double.zero]].
Proof.
  intros H. destruct src as [|c0 [|c1 [|c2 [|c3 more]]]]; cbn in H; try lia.
  exists c0, c1, c2, c3, more. split; reflexivity.
Qed.

Lemma fill_row_4_short src :
  (length src < 4)%nat -> fill_row 4 0 src (zeros 1 5) = Undefined.
Proof.
  intros H. destruct src as [|c0 [|c1 [|c2 [|c3 more]]]]; cbn in H; try lia; reflexivity.
Qed.

(** X8. With the format marker, [parseYAML] returns true whenever the file
    gives at least four intrinsics, four distortion coefficients and two
    resolution entries and the pose can be built from [T_BS]: no value is
    checked. When one of these sequences is shorter (a key that is missing
    reads as an empty sequence) the behaviour is undefined: the vector is
    indexed out of range, with no check before. *)
Theorem parseYAML_bounds this fs :
  fs_marker fs = true ->
  ((4 <= length (fs_intrinsics fs))%nat ->
   (4 <= length (fs_distortion_coefficients fs))%nat ->
   (2 <= length (fs_resolution fs))%nat ->
   returns (Vec2pose (fs_T_BS_data fs) (fs_T_BS_rows fs) (fs_T_BS_cols fs)) ->
   exists m, parseYAML this fs = Ok (true, m)) /\
  ((length (fs_distortion_coefficients fs) < 4)%nat \/
   (length (fs_resolution fs) < 2)%nat ->
   parseYAML this fs = Undefined) /\
  ((length (fs_intrinsics fs) < 4)%nat ->
   Vec2pose (fs_T_BS_data fs) (fs_T_BS_rows fs) (fs_T_BS_cols fs) <> Fatal ->
   parseYAML this fs = Undefined).
Proof.
  intros Hm. unfold parseYAML, safeOpenCVFileStorage. rewrite Hm.
  cbn [mbind result_bind]. split; [|split].
  - intros Hi Hd Hr [pose Hp].
    destruct (fill_row_4_Ok _ Hd) as (c0 & c1 & c2 & c3 & more & Ed & ->).
    cbn [mbind result_bind].
    destruct (fs_resolution fs) as [|w [|h res]]; cbn in Hr; try lia.
    cbn [at_ lookup list_lookup mbind result_bind]. rewrite Hp. cbn [mbind result_bind].
    destruct (fs_intrinsics fs) as [|i0 [|i1 [|i2 [|i3 rest]]]]; cbn in Hi; try lia.
    rewrite Ed. eexists. reflexivity.
  - intros H.
    destruct (le_lt_dec 4 (length (fs_distortion_coefficients fs))) as [Hd|Hd];
      [|rewrite (fill_row_4_short _ Hd); reflexivity].
    destruct H as [H|H]; [lia|].
    destruct (fill_row_4_Ok _ Hd) as (c0 & c1 & c2 & c3 & more & _ & ->).
    cbn [mbind result_bind].
    destruct (fs_resolution fs) as [|w [|h res]]; cbn in H; try lia; reflexivity.
  - intros Hi Hp.
    destruct (fill_row 4 0 _ _) as [dc| |] eqn:Hf; cbn [mbind result_bind];
      [|destruct (fill_row_not_Fatal _ _ _ _ Hf)|reflexivity].
    destruct (at_ (fs_resolution fs) 0) as [w| |] eqn:Hw; cbn [mbind result_bind];
      [|destruct (at_not_Fatal _ _ Hw)|reflexivity].
    destruct (at_ (fs_resolution fs) 1) as [h| |] eqn:Hh; cbn [mbind result_bind];
      [|destruct (at_not_Fatal _ _ Hh)|reflexivity].
    destruct (Vec2pose _ _ _) as [pose| |]; cbn [mbind result_bind];
      [|congruence|reflexivity].
    destruct (fs_intrinsics fs) as [|i0 [|i1 [|i2 [|i3 rest]]]]; cbn in Hi; try lia;
      reflexivity.
Qed.

Lemma parseYAML_bounds_witness :
  (exists m, parseYAML fresh euroc_yaml = Ok (true, m)) /\
  parseYAML fresh euroc_yaml_3 = Undefined.
Proof.
  split.
  - apply (proj1 (parseYAML_bounds fresh euroc_yaml eq_refl)); try (cbn; lia).
    eexists. vm_compute. reflexivity.
  - apply (proj2 (proj2 (parseYAML_bounds fresh euroc_yaml_3 eq_refl))).
    + cbn. lia.
    + vm_compute. discriminate.
Defined.

(** X9. [parseYAML] overwrites every field but the four rectification
    fields, which it leaves as they were: what it returns depends on the
    object it is called on through those four fields only. In particular,
    parsing the same input again into the model just built gives the same
    model. *)
Theorem parseYAML_overwrites this fs b m :
  parseYAML this fs = Ok (b, m) ->
  m = with_rectification this m /\
  (forall this', parseYAML this' fs = Ok (true, with_rectification this' m)) /\
  parseYAML m fs = Ok (true, m).
Proof.
  intros H.
  apply parseYAML_Ok in H
    as (dc & w & h & pose & cm & cal & Hm & Hf & Hw & Hh & Hp & Hc & Hk & -> & ->).
  assert (Hall : forall this',
    parseYAML this' fs
    = Ok (true,
          {| intrinsics_ := fs_intrinsics fs; body_Pose_cam_ := pose;
             calibration_ := cal;
             frame_rate_ := Double.div Double.one (Double.of_int (fs_rate_hz fs));
             image_size_ := {| width := w; height := h |};
             camera_matrix_ := cm; distortion_coeff_ := dc;
             undistRect_map_x_ := undistRect_map_x_ this';
             undistRect_map_y_ := undistRect_map_y_ this';
             R_rectify_ := R_rectify_ this'; P_ := P_ this' |})).
  { intros this'. unfold parseYAML, safeOpenCVFileStorage.
    rewrite Hm. cbn [mbind result_bind]. rewrite Hf. cbn [mbind result_bind].
    rewrite (at_lookup _ _ _ Hw), (at_lookup _ _ _ Hh). cbn [mbind result_bind].
    rewrite Hp. cbn [mbind result_bind]. rewrite Hc, Hk. reflexivity. }
  split; [reflexivity|]. split.
  - intros this'. apply Hall.
  - rewrite Hall. reflexivity.
Qed.

Lemma parseYAML_overwrites_witness :
  parseYAML kitti_model euroc_yaml = Ok (true, with_rectification kitti_model euroc_model) /\
  parseYAML euroc_model euroc_yaml = Ok (true, euroc_model).
Proof.
  destruct (parseYAML_overwrites fresh euroc_yaml true euroc_model euroc_parses)
    as (_ & Hall & Hsame).
  split; [apply Hall | exact Hsame].
Defined.

(** X10. [parseYAML] uses the first four distortion coefficients of the file
    only: a fifth coefficient and any further one is dropped, from the five
    slots of [distortion_coeff_], whose last slot is 0, and from the
    calibration. *)
Theorem yaml_distortion_truncated this fs b m :
  parseYAML this fs = Ok (b, m) ->
  exists c1 c2 c3 c4 more,
    fs_distortion_coefficients fs = c1 :: c2 :: c3 :: c4 :: more /\
    distortion_coeff_ m = [[c1; c2; c3; c4; Double.zero]] /\
    k1 (calibration_ m) = c1 /\ k2 (calibration_ m) = c2 /\
    p1 (calibration_ m) = c3 /\ p2 (calibration_ m) = c4.
Proof.
  intros H.
  apply parseYAML_Ok in H
    as (dc & w & h & pose & cm & cal & _ & Hf & _ & _ & _ & _ & Hk & _ & ->).
  apply build_calibration_Ok in Hk
    as (i0 & i1 & i2 & i3 & c0 & c1 & c2 & c3 & _ & _ & _ & _ & H0 & H1 & H2 & H3 & ->).
  destruct (fs_distortion_coefficients fs) as [|d0 [|d1 [|d2 [|d3 more]]]];
    try discriminate.
  cbn in H0, H1, H2, H3, Hf.
  injection H0 as <-. injection H1 as <-. injection H2 as <-. injection H3 as <-.
  injection Hf as <-. do 5 eexists. cbn. repeat split.
Qed.

Lemma yaml_distortion_truncated_witness :
  exists m, parseYAML fresh euroc_yaml_5 = Ok (true, m) /\
            distortion_coeff_ m = distortion_coeff_ euroc_model /\
            calibration_ m = calibration_ euroc_model.
Proof.
  assert (H : parseYAML fresh euroc_yaml_5 = Ok (true, euroc_model))
    by (vm_compute; reflexivity).
  exists euroc_model. split; [exact H|].
  destruct (yaml_distortion_truncated fresh euroc_yaml_5 true euroc_model H)
    as (c1 & c2 & c3 & c4 & more & _ & Hd & _).
  rewrite Hd. split; reflexivity.
Defined.

(** ** [parseKITTICalib]: which line decides which field *)

Lemma scan_lines_app cam_id ls1 ls2 st :
  scan_lines cam_id st (ls1 ++ ls2)
  = st' ← scan_lines cam_id st ls1; scan_lines cam_id st' ls2.
Proof.
  revert st. induction ls1 as [|l ls1 IH]; intros st; cbn [app scan_lines]; [reflexivity|].
  destruct (scan_line cam_id st l); cbn [mbind result_bind]; [apply IH | reflexivity ..].
Qed.

(** When every step either leaves a part of the state as it is or, on a line
    of a label, gives it a value that the line alone decides, the part after
    the loop is decided by the last line of that label. *)
Lemma scan_lines_last_record {F : Type} cam_id lbl (part : scan -> F)
    (val : list token -> F -> Prop) :
  (forall st l st', scan_step cam_id st l st' ->
     match line_record lbl l with
     | None => part st' = part st
     | Some ts => val ts (part st')
     end) ->
  forall ls st st',
    scan_lines cam_id st ls = Ok st' ->
    match record lbl ls with
    | None => part st' = part st
    | Some ts => val ts (part st')
    end.
Proof.
  intros Hstep ls. induction ls as [|l ls IH]; intros st st' H; cbn [scan_lines record] in *.
  - injection H as <-. reflexivity.
  - ok_inv H. apply scan_line_step in E. specialize (IH _ _ H).
    specialize (Hstep _ _ _ E).
    destruct (record lbl ls); [exact IH|].
    destruct (line_record lbl l); congruence.
Qed.

Lemma scan_step_K cam_id st l st' :
  scan_step cam_id st l st' ->
  match line_record (label_of "K" cam_id) l with
  | None => (intrinsics_ (params st'), camera_matrix_ (params st'))
            = (intrinsics_ (params st), camera_matrix_ (params st))
  | Some ts => K_values ts (intrinsics_ (params st'), camera_matrix_ (params st'))
  end.
Proof.
  intros H.
  destruct H;
    try (rewrite (unrecognized_line_record cam_id "K" (Text label rest)) by (cbn; auto 10);
         reflexivity);
    cbn [line_record];
    rewrite ?label_eqb_refl, ?label_eqb_other by (congruence || reflexivity);
    try reflexivity.
  do 4 eexists. repeat split; eassumption.
Qed.

Lemma extract_two rest ss1 ss2 wd hd :
  extract {| toks := rest; failed := false |} None = (ss1, Some wd) ->
  extract ss1 None = (ss2, Some hd) ->
  first_two rest = Some (wd, hd).
Proof.
  destruct rest as [|[w|] rest]; cbn; intros [= <- <-]; cbn; [|discriminate].
  destruct rest as [|[h|] rest]; cbn; intros [= <- <-]; reflexivity.
Qed.

Lemma scan_step_S cam_id st l st' :
  scan_step cam_id st l st' ->
  match line_record (label_of "S" cam_id) l with
  | None => image_size_ (params st') = image_size_ (params st)
  | Some ts => S_values ts (image_size_ (params st'))
  end.
Proof.
  intros H.
  destruct H;
    try (rewrite (unrecognized_line_record cam_id "S" (Text label rest)) by (cbn; auto 10);
         reflexivity);
    cbn [line_record];
    rewrite ?label_eqb_refl, ?label_eqb_other by (congruence || reflexivity);
    try reflexivity.
  exists wd, hd, w, h. repeat split; try assumption.
  eapply extract_two; eassumption.
Qed.

(** X11. When [parseKITTICalib] returns, the intrinsics are the numbers 0, 4,
    2 and 5 of the last line of label K, whatever earlier lines of label K
    held; without such a line the intrinsics and the camera matrix are those
    the model had before the call. *)
Theorem kitti_last_K_record this ls R_ref T_ref cam_id b m :
  parseKITTICalib this (Some ls) R_ref T_ref cam_id = Ok (b, m) ->
  match record (label_of "K" cam_id) ls with
  | None => intrinsics_ m = intrinsics_ this /\ camera_matrix_ m = camera_matrix_ this
  | Some ts =>
      exists k0 k4 k2 k5,
        push_back_all ts [] !! 0%nat = Some k0 /\ push_back_all ts [] !! 4%nat = Some k4 /\
        push_back_all ts [] !! 2%nat = Some k2 /\ push_back_all ts [] !! 5%nat = Some k5 /\
        intrinsics_ m = [k0; k4; k2; k5]
  end.
Proof.
  intros H.
  apply parseKITTICalib_Ok in H as (ls' & st & cal & [= <-] & Hs & _ & _ & _ & _ & _ & ->).
  apply (scan_lines_last_record cam_id _ _ K_values (scan_step_K cam_id)) in Hs.
  destruct (record (label_of "K" cam_id) ls).
  - destruct Hs as (k0 & k4 & k2 & k5 & ? & ? & ? & ? & [= Hi _]).
    exists k0, k4, k2, k5. cbn. auto.
  - injection Hs as Hi Hc. cbn in *. auto.
Qed.

Lemma kitti_last_K_record_witness :
  intrinsics_ kitti_model
  = [Double.ratio 7215 10; Double.ratio 7215 10; Double.ratio 6096 10; Double.ratio 1728 10].
Proof.
  pose proof (kitti_last_K_record fresh kitti_txt (eye 3 3) (zeros 3 1) "0"%string
                true kitti_model kitti_parses) as H.
  change (record (label_of "K" "0") kitti_txt)
    with (Some [Num (Double.ratio 7215 10); Num Double.zero; Num (Double.ratio 6096 10);
                Num Double.zero; Num (Double.ratio 7215 10); Num (Double.ratio 1728 10);
                Num Double.zero; Num Double.zero; Num Double.one]) in H.
  destruct H as (k0 & k4 & k2 & k5 & H0 & H4 & H2 & H5 & ->).
  cbn in H0, H4, H2, H5.
  injection H0 as <-. injection H4 as <-. injection H2 as <-. injection H5 as <-.
  reflexivity.
Defined.

(** X12. When [parseKITTICalib] returns, the image size is read from the last
    line of label S: the two doubles after the label (0 for the second when
    it is not a number), each converted to [int] by dropping its fraction;
    without such a line the image size is the one the model had before the
    call. *)
Theorem kitti_last_S_record this ls R_ref T_ref cam_id b m :
  parseKITTICalib this (Some ls) R_ref T_ref cam_id = Ok (b, m) ->
  match record (label_of "S" cam_id) ls with
  | None => image_size_ m = image_size_ this
  | Some ts =>
      exists wd hd w h,
        first_two ts = Some (wd, hd) /\
        Double.to_int wd = Some w /\ Double.to_int hd = Some h /\
        image_size_ m = {| width := w; height := h |}
  end.
Proof.
  intros H.
  apply parseKITTICalib_Ok in H as (ls' & st & cal & [= <-] & Hs & _ & _ & _ & _ & _ & ->).
  apply (scan_lines_last_record cam_id _ (fun s => image_size_ (params s)) S_values
           (scan_step_S cam_id)) in Hs.
  destruct (record (label_of "S" cam_id) ls); exact Hs.
Qed.

Lemma kitti_last_S_record_witness :
  image_size_ kitti_model = {| width := 1242; height := 375 |}.
Proof.
  pose proof (kitti_last_S_record fresh kitti_txt (eye 3 3) (zeros 3 1) "0"%string
                true kitti_model kitti_parses) as H.
  change (record (label_of "S" "0") kitti_txt)
    with (Some [Num (Double.of_int 1242); Num (Double.of_int 375)]) in H.
  destruct H as (wd & hd & w & h & Hf & Hw & Hh & ->).
  cbn in Hf. injection Hf as <- <-.
  vm_compute in Hw, Hh. injection Hw as <-. injection Hh as <-. reflexivity.
Defined.

(** The conversion to [int] drops the fraction, toward zero. *)
Example to_int_truncates :
  Double.to_int (Double.ratio 12429 10) = Some 1242 /\
  Double.to_int (Double.ratio (-15) 10) = Some (-1) /\
  Double.to_int (Double.of_int (2 ^ 31)) = None.
Proof. repeat split. Qed.

Lemma scan_step_unparsed_fields cam_id st l st' :
  scan_step cam_id st l st' ->
  unparsed_fields (params st') = unparsed_fields (params st).
Proof. intros H. destruct H; reflexivity. Qed.

(** X13. When [parseKITTICalib] returns, the frame rate of the model is
    1 / 10.0 whatever the file holds, and the four rectification fields are
    those the model had before the call. *)
Theorem kitti_frame_rate_and_rectification this calib_file R_ref T_ref cam_id b m :
  parseKITTICalib this calib_file R_ref T_ref cam_id = Ok (b, m) ->
  frame_rate_ m = Double.div Double.one (Double.of_int 10) /\
  undistRect_map_x_ m = undistRect_map_x_ this /\
  undistRect_map_y_ m = undistRect_map_y_ this /\
  R_rectify_ m = R_rectify_ this /\ P_ m = P_ this.
Proof.
  intros H.
  apply parseKITTICalib_Ok in H as (ls & st & cal & _ & Hs & _ & _ & _ & _ & _ & ->).
  eapply (scan_lines_invariant cam_id
            (fun s => unparsed_fields (params s)
                      = (Double.div Double.one (Double.of_int 10),
                         (undistRect_map_x_ this, undistRect_map_y_ this,
                          R_rectify_ this, P_ this)))) in Hs.
  - cbn in Hs. injection Hs as H1 H2 H3 H4 H5. cbn. auto.
  - intros s l s' Hp Hst. rewrite (scan_step_unparsed_fields _ _ _ _ Hst). exact Hp.
  - reflexivity.
Qed.

Lemma kitti_frame_rate_and_rectification_witness :
  frame_rate_ kitti_model = Double.ratio 1 10.
Proof.
  exact (proj1 (kitti_frame_rate_and_rectification fresh (Some kitti_txt) (eye 3 3)
                  (zeros 3 1) "0"%string true kitti_model kitti_parses)).
Defined.

(** X14. Once a file parses, one more line of label D at its end changes
    nothing: the numbers of the new line are pushed behind those already
    read, and only the first five of the vector are used. *)
Theorem kitti_later_D_line_ignored this ls R_ref T_ref cam_id b m rest :
  parseKITTICalib this (Some ls) R_ref T_ref cam_id = Ok (b, m) ->
  parseKITTICalib this (Some (ls ++ [Text (label_of "D" cam_id) rest])) R_ref T_ref cam_id
  = Ok (true, m).
Proof.
  intros H.
  apply parseKITTICalib_Ok in H
    as (ls' & st & cal & [= <-] & Hs & HR & HT1 & HT2 & Hk & _ & ->).
  assert (Hd : distortion_stored st).
  { eapply (scan_lines_invariant cam_id _ (scan_step_distortion_stored cam_id));
      [|exact Hs]. left. reflexivity. }
  pose proof Hk as Hk'.
  apply build_calibration_Ok in Hk'
    as (i0 & i1 & i2 & i3 & c0 & c1 & c2 & c3 & Hi0 & Hi1 & Hi2 & Hi3 & H0 & _).
  destruct Hd as [Hd|(d0 & d1 & d2 & d3 & d4 & more & Hd & Hdc)].
  { rewrite Hd in H0. discriminate. }
  assert (Hstep : scan_line cam_id st (Text (label_of "D" cam_id) rest)
                  = Ok {| params := params st; cvR := cvR st; cvT := cvT st;
                          distortion_coeff5_ := distortion_coeff5_ st
                                                ++ push_back_all rest [] |}).
  { apply scan_line_step. eapply scan_step_eq.
    - apply step_D. rewrite push_back_all_app, Hd. reflexivity.
    - rewrite <- push_back_all_app. f_equal.
      destruct (params st). cbn in *. rewrite Hdc. reflexivity. }
  apply (parseKITTICalib_intro this _ R_ref T_ref cam_id
           {| params := params st; cvR := cvR st; cvT := cvT st;
              distortion_coeff5_ := distortion_coeff5_ st ++ push_back_all rest [] |} cal).
  - rewrite scan_lines_app, Hs. cbn [mbind result_bind scan_lines]. rewrite Hstep.
    reflexivity.
  - exact HR.
  - exact HT1.
  - exact HT2.
  - cbn [params distortion_coeff5_]. rewrite <- Hk. rewrite Hd.
    unfold build_calibration. reflexivity.
Qed.

Lemma kitti_later_D_line_ignored_witness :
  parseKITTICalib fresh (Some kitti_two_D_txt) (eye 3 3) (zeros 3 1) "0"
  = Ok (true, kitti_model).
Proof.
  exact (kitti_later_D_line_ignored fresh kitti_txt (eye 3 3) (zeros 3 1) "0"%string
           true kitti_model _ kitti_parses).
Defined.

(** Every line of a file whose scan returns took a step. *)
Lemma scan_lines_steps cam_id ls st st' :
  scan_lines cam_id st ls = Ok st' ->
  Forall (fun l => exists s s', scan_step cam_id s l s') ls.
Proof.
  revert st. induction ls as [|l ls IH]; intros st H; cbn [scan_lines] in H.
  - constructor.
  - ok_inv H. apply scan_line_step in E. constructor; eauto.
Qed.

Lemma malformed_no_step cam_id l s s' :
  malformed cam_id l = true -> scan_step cam_id s l s' -> False.
Proof.
  intros Hm H. destruct H; cbn [malformed] in Hm.
  - discriminate.
  - cbn [unrecognized has_label] in H.
    apply negb_true_iff in H. repeat (apply orb_false_iff in H as [H ?]).
    repeat match goal with E : String.eqb _ _ = false |- _ => rewrite E in Hm; clear E end.
    discriminate.
  - destruct rest; [discriminate|].
    rewrite andb_false_r, orb_false_r in Hm.
    rewrite label_eqb_other in Hm by (congruence || reflexivity). discriminate.
  - rewrite label_eqb_refl in Hm.
    rewrite !(label_eqb_other "K") in Hm by (congruence || reflexivity).
    cbn [andb orb] in Hm. rewrite orb_false_r in Hm.
    apply Nat.ltb_lt in Hm. apply lookup_lt_Some in H2. lia.
  - rewrite !(label_eqb_other "D") in Hm by (congruence || reflexivity). discriminate.
  - destruct rest; [discriminate|].
    rewrite andb_false_r, orb_false_r in Hm.
    rewrite label_eqb_other in Hm by (congruence || reflexivity). discriminate.
  - destruct rest; [discriminate|].
    rewrite andb_false_r, orb_false_r in Hm.
    rewrite label_eqb_other in Hm by (congruence || reflexivity). discriminate.
Qed.

(** ** [parseKITTICalib]: lines with too few numbers *)










(** ** [parseKITTICalib]: the order of the lines *)

Lemma same_record_sym cam_id l1 l2 : same_record cam_id l1 l2 = same_record cam_id l2 l1.
Proof.
  unfold same_record. cbn [existsb].
  rewrite !(andb_comm (has_label _ l1)). reflexivity.
Qed.

(** Two steps in a row on lines of different labels can be taken in the
    other order, through another state in between. *)
Lemma scan_step_swap cam_id st l1 l2 st1 st2 :
  same_record cam_id l1 l2 = false ->
  scan_step cam_id st l1 st1 -> scan_step cam_id st1 l2 st2 ->
  exists mid, scan_step cam_id st l2 mid /\ scan_step cam_id mid l1 st2.
Proof.
  intros Hn H1 H2. destruct H1; destruct H2;
    try (exfalso; unfold same_record in Hn; cbn [existsb has_label] in Hn;
         rewrite ?label_eqb_refl in Hn;
         rewrite ?label_eqb_other in Hn by (congruence || reflexivity);
         discriminate Hn);
    (eexists; split; [same_step | same_step]).
Qed.

Lemma read_entries_not_Fatal n i w ss value m : read_entries n i w ss value m <> Fatal.
Proof.
  revert i ss value m. induction n as [|n IH]; intros i ss value m; cbn [read_entries];
    [discriminate|].
  destruct (extract ss value) as [ss' value'].
  apply bind_not_Fatal; [destruct value'; discriminate | intros; apply IH].
Qed.

(** A turn of the read loop never stops the process. *)
Lemma scan_line_not_Fatal cam_id st l : scan_line cam_id st l <> Fatal.
Proof.
  destruct l as [|label rest]; cbn [scan_line]; [discriminate|].
  label_cases cam_id label.
  - destruct (extract _ None) as [ss1 w]. destruct (extract ss1 None) as [ss2 h].
    repeat (apply bind_not_Fatal; [|intros]); try discriminate;
      try (destruct w; discriminate); try (destruct h; discriminate);
      unfold int_of_double; destruct (Double.to_int _); discriminate.
  - unfold build_camera_matrix.
    repeat (apply bind_not_Fatal; [|intros]); try apply at_not_Fatal; discriminate.
  - apply bind_not_Fatal; [apply fill_row_not_Fatal | discriminate].
  - apply bind_not_Fatal; [apply read_entries_not_Fatal | discriminate].
  - apply bind_not_Fatal; [apply read_entries_not_Fatal | discriminate].
  - discriminate.
Qed.

Lemma scan_lines_not_Fatal cam_id ls st : scan_lines cam_id st ls <> Fatal.
Proof.
  revert st. induction ls as [|l ls IH]; intros st; cbn [scan_lines]; [discriminate|].
  apply bind_not_Fatal; [apply scan_line_not_Fatal | intros; apply IH].
Qed.

Lemma scan_lines_swap_Ok cam_id st l1 l2 ls s :
  same_record cam_id l1 l2 = false ->
  scan_lines cam_id st (l1 :: l2 :: ls) = Ok s ->
  scan_lines cam_id st (l2 :: l1 :: ls) = Ok s.
Proof.
  intros Hn H. cbn [scan_lines] in *. ok_inv H.
  apply scan_line_step in E, E0.
  destruct (scan_step_swap _ _ _ _ _ _ Hn E E0) as (mid & Hm1 & Hm2).
  apply scan_line_step in Hm1, Hm2. rewrite Hm1. cbn [mbind result_bind].
  rewrite Hm2. exact H.
Qed.

Lemma scan_lines_swap cam_id st l1 l2 ls :
  same_record cam_id l1 l2 = false ->
  scan_lines cam_id st (l1 :: l2 :: ls) = scan_lines cam_id st (l2 :: l1 :: ls).
Proof.
  intros Hn.
  destruct (scan_lines cam_id st (l1 :: l2 :: ls)) as [s| |] eqn:E1.
  - symmetry. apply scan_lines_swap_Ok; assumption.
  - destruct (scan_lines_not_Fatal _ _ _ E1).
  - destruct (scan_lines cam_id st (l2 :: l1 :: ls)) as [s| |] eqn:E2.
    + apply scan_lines_swap_Ok in E2; [congruence|].
      rewrite same_record_sym. exact Hn.
    + destruct (scan_lines_not_Fatal _ _ _ E2).
    + reflexivity.
Qed.

(** X18. Two lines in a row that do not carry the same one of the five
    labels can be exchanged, anywhere in the file: [parseKITTICalib] has the
    same outcome and, when it returns, gives the same model. Only the order
    of the lines of one label among themselves matters. *)
Theorem kitti_lines_exchange this before l1 l2 after R_ref T_ref cam_id :
  same_record cam_id l1 l2 = false ->
  parseKITTICalib this (Some (before ++ l1 :: l2 :: after)) R_ref T_ref cam_id
  = parseKITTICalib this (Some (before ++ l2 :: l1 :: after)) R_ref T_ref cam_id.
Proof.
  intros Hn. unfold parseKITTICalib. rewrite !scan_lines_app.
  destruct (scan_lines cam_id _ before) as [s| |]; cbn [mbind result_bind];
    [|reflexivity ..].
  rewrite (scan_lines_swap _ _ _ _ _ Hn). reflexivity.
Qed.

Lemma kitti_lines_exchange_witness :
  parseKITTICalib fresh
    (Some (Text "T_0:" (Num <$> concat (zeros 3 1)) :: kitti_no_K_txt
           ++ [ Text "K_0:" [Num (Double.ratio 7215 10); Num Double.zero;
                             Num (Double.ratio 6096 10); Num Double.zero;
                             Num (Double.ratio 7215 10); Num (Double.ratio 1728 10)];
                Text "S_0:" [Num (Double.of_int 1242); Num (Double.of_int 375)] ]))
    (eye 3 3) (zeros 3 1) "0"
  = parseKITTICalib fresh
      (Some (Text "T_0:" (Num <$> concat (zeros 3 1)) :: kitti_no_K_txt
             ++ [ Text "S_0:" [Num (Double.of_int 1242); Num (Double.of_int 375)];
                  Text "K_0:" [Num (Double.ratio 7215 10); Num Double.zero;
                               Num (Double.ratio 6096 10); Num Double.zero;
                               Num (Double.ratio 7215 10); Num (Double.ratio 1728 10)] ]))
      (eye 3 3) (zeros 3 1) "0".
Proof.
  apply (kitti_lines_exchange fresh
           (Text "T_0:" (Num <$> concat (zeros 3 1)) :: kitti_no_K_txt)).
  reflexivity.
Defined.

(** X15. With a line of label K of fewer than six numbers, or a line of
    label S, R or T with nothing after the label, anywhere in the file, also
    before a complete line of the same label, the behaviour of
    [parseKITTICalib] is undefined: the line is not skipped, a vector is
    indexed out of range or a variable is read that no extraction wrote. *)
Theorem kitti_malformed_line this ls R_ref T_ref cam_id :
  Exists (fun l => malformed cam_id l = true) ls ->
  parseKITTICalib this (Some ls) R_ref T_ref cam_id = Undefined.
Proof.
  intros Hex. unfold parseKITTICalib.
  destruct (scan_lines cam_id _ ls) as [st| |] eqn:Hs; cbn [mbind result_bind].
  - exfalso. apply scan_lines_steps in Hs.
    apply Exists_exists in Hex as (l & Hin & Hm).
    rewrite Forall_forall in Hs. destruct (Hs l Hin) as (s & s' & Hstep).
    exact (malformed_no_step _ _ _ _ Hm Hstep).
  - destruct (scan_lines_not_Fatal _ _ _ Hs).
  - reflexivity.
Qed.

Lemma kitti_malformed_line_witness :
  parseKITTICalib fresh (Some kitti_short_K_txt) (eye 3 3) (zeros 3 1) "0" = Undefined.
Proof.
  apply (kitti_malformed_line fresh kitti_short_K_txt (eye 3 3) (zeros 3 1) "0"%string).
  apply Exists_cons_hd. reflexivity.
Defined.

(** ** [parseKITTICalib]: parsing into a model that was parsed before *)

(** Whether a step can be taken does not depend on the camera parameters,
    nor does what it leaves in the rest of the state. *)
Lemma scan_step_params cam_id st l st' p :
  scan_step cam_id st l st' ->
  exists p', scan_step cam_id (with_params p st) l (with_params p' st').
Proof. intros H. destruct H; eexists; same_step. Qed.

Lemma scan_lines_params cam_id ls st st' p :
  scan_lines cam_id st ls = Ok st' ->
  exists p', scan_lines cam_id (with_params p st) ls = Ok (with_params p' st').
Proof.
  revert st p. induction ls as [|l ls IH]; intros st p H; cbn [scan_lines] in *.
  - injection H as <-. exists p. reflexivity.
  - ok_inv H. apply scan_line_step in E.
    destruct (scan_step_params _ _ _ _ p E) as (p1 & H1).
    apply scan_line_step in H1. rewrite H1. cbn [mbind result_bind].
    apply IH, H.
Qed.

Lemma scan_lines_unparsed_fields cam_id ls st st' :
  scan_lines cam_id st ls = Ok st' ->
  unparsed_fields (params st') = unparsed_fields (params st).
Proof.
  revert st. induction ls as [|l ls IH]; intros st H; cbn [scan_lines] in H.
  - injection H as <-. reflexivity.
  - ok_inv H. apply scan_line_step in E.
    rewrite (IH _ H). exact (scan_step_unparsed_fields _ _ _ _ E).
Qed.

Lemma scan_lines_distortion_stored cam_id ls st st' :
  distortion_coeff5_ st = [] ->
  scan_lines cam_id st ls = Ok st' -> distortion_stored st'.
Proof.
  intros H0 H.
  eapply (scan_lines_invariant cam_id _ (scan_step_distortion_stored cam_id));
    [|exact H]. left. exact H0.
Qed.

Lemma S_values_deterministic ts a b : S_values ts a -> S_values ts b -> a = b.
Proof.
  intros (wd & hd & w & h & Hf & Hw & Hh & ->) (wd' & hd' & w' & h' & Hf' & Hw' & Hh' & ->).
  congruence.
Qed.

Lemma K_values_deterministic ts a b : K_values ts a -> K_values ts b -> a = b.
Proof.
  intros (k0 & k4 & k2 & k5 & H0 & H4 & H2 & H5 & ->)
         (k0' & k4' & k2' & k5' & H0' & H4' & H2' & H5' & ->).
  congruence.
Qed.

(** X19. Parsing the same file again into the model that [parseKITTICalib]
    just built gives this model again: every field a line of the file writes
    is written as before, and the fields no line writes are kept. *)
Theorem kitti_parse_again this ls R_ref T_ref cam_id b m :
  parseKITTICalib this (Some ls) R_ref T_ref cam_id = Ok (b, m) ->
  parseKITTICalib m (Some ls) R_ref T_ref cam_id = Ok (true, m).
Proof.
  intros H.
  apply parseKITTICalib_Ok in H
    as (ls' & st & cal & [= <-] & Hs & HR & HT1 & HT2 & Hk & _ & ->).
  set (pose := Cvmats2pose (mat_mul R_ref (cvR st)) (mat_add T_ref (cvT st))).
  set (m := set_pose_calibration pose cal (params st)).
  set (rate := Double.div Double.one (Double.of_int 10)).
  destruct (scan_lines_params _ _ _ _ (set_frame_rate rate m) Hs) as (p' & Hs').
  change (with_params (set_frame_rate rate m) _)
    with {| params := set_frame_rate rate m; cvR := zeros 3 3; cvT := zeros 3 1;
            distortion_coeff5_ := [] |} in Hs'.
  (* the fields no line writes *)
  assert (Hu : unparsed_fields p' = unparsed_fields (params st)).
  { apply scan_lines_unparsed_fields in Hs, Hs'. cbn [with_params params] in Hs, Hs'.
    rewrite Hs'. unfold unparsed_fields in *. cbn in *.
    injection Hs as -> _ _ _ _. reflexivity. }
  (* the image size *)
  assert (Hz : image_size_ p' = image_size_ (params st)).
  { pose proof (scan_lines_last_record cam_id _ (fun s => image_size_ (params s)) S_values
                  (scan_step_S cam_id) _ _ _ Hs) as H1.
    pose proof (scan_lines_last_record cam_id _ (fun s => image_size_ (params s)) S_values
                  (scan_step_S cam_id) _ _ _ Hs') as H2.
    destruct (record (label_of "S" cam_id) ls).
    - exact (S_values_deterministic _ _ _ H2 H1).
    - exact H2. }
  (* the intrinsics and the camera matrix *)
  assert (Hi : (intrinsics_ p', camera_matrix_ p')
               = (intrinsics_ (params st), camera_matrix_ (params st))).
  { pose proof (scan_lines_last_record cam_id _ _ K_values (scan_step_K cam_id) _ _ _ Hs)
      as H1.
    pose proof (scan_lines_last_record cam_id _ _ K_values (scan_step_K cam_id) _ _ _ Hs')
      as H2.
    destruct (record (label_of "K" cam_id) ls).
    - exact (K_values_deterministic _ _ _ H2 H1).
    - exact H2. }
  (* the distortion coefficients *)
  assert (Hd : distortion_coeff_ p' = distortion_coeff_ (params st)).
  { assert (H1 : distortion_stored st)
      by (eapply scan_lines_distortion_stored; [|exact Hs]; reflexivity).
    assert (H2 : distortion_stored (with_params p' st))
      by (eapply scan_lines_distortion_stored; [|exact Hs']; reflexivity).
    pose proof Hk as Hk'.
    apply build_calibration_Ok in Hk'
      as (? & ? & ? & ? & c0 & ? & ? & ? & _ & _ & _ & _ & H0 & _).
    destruct H1 as [H1|(? & ? & ? & ? & ? & ? & H1 & H1')];
      [rewrite H1 in H0; discriminate|].
    destruct H2 as [H2|(? & ? & ? & ? & ? & ? & H2 & H2')]; cbn in H2;
      [rewrite H2 in H0; discriminate|].
    cbn in H2'. rewrite H1', H2'. congruence. }
  injection Hi as Hi Hc.
  rewrite (parseKITTICalib_intro m ls R_ref T_ref cam_id (with_params p' st) cal Hs');
    try assumption.
  - f_equal. f_equal. subst m. unfold unparsed_fields in Hu.
    destruct p', (params st). cbn in *.
    injection Hu as -> -> -> -> ->. subst. reflexivity.
  - cbn [with_params params distortion_coeff5_]. rewrite Hi. exact Hk.
Qed.

Lemma kitti_parse_again_witness :
  parseKITTICalib kitti_model (Some kitti_txt) (eye 3 3) (zeros 3 1) "0"
  = Ok (true, kitti_model).
Proof.
  exact (kitti_parse_again fresh kitti_txt (eye 3 3) (zeros 3 1) "0"%string true
           kitti_model kitti_parses).
Defined.
